(** * Vencord plugins ClientPinnedMessages and AlwaysConnected

  A shallow embedding of three source files:
  - the ClientPinnedMessages plugin (pin store, toggle, unpin button),
  - the AlwaysConnected plugin (plugins/alwaysConnected/index.tsx),
  - the native companion of AlwaysConnected (state file and monitor).

  Conventions of the embedding.
  - A JavaScript [string] is a [string]; [null] and [undefined] of a
    [string | null] value are [None].
  - A JavaScript number that holds an integer (timestamps, delays,
    attempt counters) is a [Z].  The products and sums taken by the
    code stay far below 2^53 for every attempt count a run can reach,
    and the cap [Math.min (_, 60000)] absorbs anything larger.
  - Handlers are run-to-completion: each handler is a function from
    the state before to the state after, together with the list of
    host calls it issued, oldest first.  What the host answers while
    a handler runs is an argument of the handler.
  - [console.*] output and the two [alert] dialogs are not modelled. *)

From Stdlib Require Import ZArith List String Ascii Bool Lia Sorted.
From stdpp Require Import base gmap strings list.
Import ListNotations.

Local Open Scope Z_scope.

(** ** JavaScript values the plugins rely on *)

Module Js.

(** The outcome of calling into the host: a value, or an exception. *)
Inductive Call (A : Type) : Type :=
| Returns (a : A)
| Throws.
Arguments Returns {A} a.
Arguments Throws {A}.

(** Truthiness of a [string | null | undefined]: the empty string and
    the two absent values are falsy. *)
Definition truthy (s : option string) : bool :=
  match s with
  | Some s => negb (String.eqb s "")
  | None => false
  end.

(** [a || b] on [string | null]. *)
Definition or (a b : option string) : option string :=
  if truthy a then a else b.

(** [String.prototype.includes]. *)
Fixpoint includes (needle hay : string) : bool :=
  String.prefix needle hay
  || match hay with
     | EmptyString => false
     | String _ rest => includes needle rest
     end.

(** [toLowerCase] on the ASCII letters; other characters are kept. *)
Definition lowerAscii (c : ascii) : ascii :=
  let n := nat_of_ascii c in
  if (Nat.leb 65 n && Nat.leb n 90)%bool then ascii_of_nat (n + 32) else c.

Fixpoint toLowerCase (s : string) : string :=
  match s with
  | EmptyString => EmptyString
  | String c rest => String (lowerAscii c) (toLowerCase rest)
  end.

End Js.

(** ** Records shared by the modules *)

(** interface PinnedMessage *)
Module PinnedMessage.
Record t : Type := mk {
  id : string;
  channelId : string;
  content : string;
  author : string;
  timestamp : Z
}.
End PinnedMessage.

(** The host's message object, as far as [togglePin] reads it:
  [id], [channel_id], [content] and [author.username]. *)
Module Message.
Record t : Type := mk {
  id : string;
  channel_id : string;
  content : string;
  author_username : string
}.
End Message.

(** One entry of the [updates] array of a VOICE_STATE_UPDATES action. *)
Module VoiceState.
Record t : Type := mk {
  channelId : option string;
  guildId : option string;
  selfMute : bool;
  selfDeaf : bool
}.
End VoiceState.

(** ** The host's key-value store *)

Module DataStore.

(** What the two plugins keep in the store. *)
Inductive Value : Type :=
| Null
| Str (s : string)
| Pins (l : list PinnedMessage.t).

(** Modelled from the spec: the module [@api/DataStore] is not among
    the sources.  The spec describes it as a persistent key-value
    get/set capability holding, under [ClientPinnedMessages], an
    ordered sequence of PinnedMessage records and, under
    [AlwaysConnected_lastVoiceChannel], a string or nothing.  [get]
    reads the entry, [set] replaces it and touches no other key. *)
Definition get (key : string) (db : gmap string Value) : option Value :=
  db !! key.

Definition set (key : string) (value : Value) (db : gmap string Value)
  : gmap string Value :=
  <[key := value]> db.

End DataStore.

(** ** ClientPinnedMessages *)

Module ClientPinnedMessages.

Definition PINNED_KEY : string := "ClientPinnedMessages".

(** The module-level variable [pinnedMessages] and the store. *)
Record State : Type := mkState {
  pinnedMessages : list PinnedMessage.t;
  db : gmap string DataStore.Value
}.

(** [DataStore.get(PINNED_KEY, [])], read at the type the source casts
    it to: a stored list, or the empty list. *)
Definition loadPinnedMessages (db : gmap string DataStore.Value)
  : list PinnedMessage.t :=
  match DataStore.get PINNED_KEY db with
  | Some (DataStore.Pins pins) => pins
  | _ => []
  end.

Definition savePinnedMessages (pins : list PinnedMessage.t)
  (db : gmap string DataStore.Value) : gmap string DataStore.Value :=
  DataStore.set PINNED_KEY (DataStore.Pins pins) db.

(** [pinnedMessages.some(pin => pin.id === messageId)] *)
Definition isPinned (messageId : string) (st : State) : bool :=
  existsb (fun pin => String.eqb (PinnedMessage.id pin) messageId)
          (pinnedMessages st).

(** [pinnedMessages.filter(pin => pin.id !== messageId)] *)
Definition without (messageId : string) (pins : list PinnedMessage.t)
  : list PinnedMessage.t :=
  List.filter (fun pin => negb (String.eqb (PinnedMessage.id pin) messageId))
              pins.

(** The record [togglePin] pushes; [now] is what [Date.now()] returns. *)
Definition newPin (now : Z) (message : Message.t) : PinnedMessage.t :=
  {| PinnedMessage.id := Message.id message;
     PinnedMessage.channelId := Message.channel_id message;
     PinnedMessage.content := Message.content message;
     PinnedMessage.author := Message.author_username message;
     PinnedMessage.timestamp := now |}.

Definition togglePin (now : Z) (message : Message.t) (st : State) : State :=
  let pins :=
    if isPinned (Message.id message) st
    then without (Message.id message) (pinnedMessages st)
    else pinnedMessages st ++ [newPin now message] in
  {| pinnedMessages := pins;
     db := savePinnedMessages pins (db st) |}.

(** The Unpin button of [ClientPinsTab], clicked on the row that shows
    [pin].  The second component is the value handed to [setPins]. *)
Definition unpinClick (pin : PinnedMessage.t) (st : State)
  : State * list PinnedMessage.t :=
  let pins := without (PinnedMessage.id pin) (pinnedMessages st) in
  let db' := savePinnedMessages pins (db st) in
  ({| pinnedMessages := pins; db := db' |}, loadPinnedMessages db').

(** [onStart]: the list is read back from the store. *)
Definition onStart (st : State) : State :=
  {| pinnedMessages := loadPinnedMessages (db st); db := db st |}.

(** The operations a user can perform on the pin list. *)
Inductive Op : Type :=
| TogglePin (now : Z) (message : Message.t)
| UnpinClick (pin : PinnedMessage.t).

Definition apply (st : State) (op : Op) : State :=
  match op with
  | TogglePin now message => togglePin now message st
  | UnpinClick pin => fst (unpinClick pin st)
  end.

Definition run (ops : list Op) (st : State) : State :=
  fold_left apply ops st.

(** A sequence of [togglePin] calls, each with its clock reading. *)
Definition toggleAll (calls : list (Z * Message.t)) (st : State) : State :=
  fold_left (fun st call => togglePin (fst call) (snd call) st) calls st.

(** How many of the calls were made on the message id [messageId]. *)
Definition togglesOf (messageId : string) (calls : list (Z * Message.t))
  : nat :=
  length (List.filter
            (fun call => String.eqb (Message.id (snd call)) messageId)
            calls).

(** The state whose pin list is empty. *)
Definition empty (db : gmap string DataStore.Value) : State :=
  {| pinnedMessages := []; db := db |}.

(** The ids held by a pin list, in list order. *)
Definition ids (pins : list PinnedMessage.t) : list string :=
List.map PinnedMessage.id pins.

(** The test of [isPinned] on any list. *)
Definition holds (messageId : string) (pins : list PinnedMessage.t) : bool :=
existsb (fun pin => String.eqb (PinnedMessage.id pin) messageId) pins.

(** *** The list view and the context menu *)

(** [x] enters a list that is already arranged newest first: it goes in
    front of the first record that is not newer than it. *)
Fixpoint insertNewestFirst (x : PinnedMessage.t) (l : list PinnedMessage.t)
  : list PinnedMessage.t :=
match l with
| [] => [x]
| y :: rest =>
    if PinnedMessage.timestamp y <=? PinnedMessage.timestamp x
    then x :: y :: rest
    else y :: insertNewestFirst x rest
end.

(** [.slice().sort((a, b) => b.timestamp - a.timestamp)].  The sort of
    an array is stable and the comparator orders records by their
    timestamps, so the outcome is the one stable arrangement by
    descending timestamp; it is computed here by insertion from the
    right.  The copy made by [slice] leaves the argument as it is. *)
Definition sortNewestFirst (pins : list PinnedMessage.t)
  : list PinnedMessage.t :=
List.fold_right insertNewestFirst [] pins.

(** The value the polling interval of [ClientPinsTab] hands to
    [setPins] every 2000 ms. *)
Definition pollPins (db : gmap string DataStore.Value) : list PinnedMessage.t :=
sortNewestFirst (loadPinnedMessages db).

(** The children of the message context menu: the host's own entries,
    and the two the patch pushes.  A button carries the message its
    action will hand to [togglePin]. *)
Inductive MenuItem : Type :=
| hostItem (label : string)
| separator
| button (label : string) (message : Message.t).

(** The [props] of the menu, as far as the patch reads them. *)
Record MenuProps : Type := mkMenuProps {
  message : option Message.t
}.

(** The callback of [ContextMenu.patch("MessageContextMenu", ...)];
    [children] is [menu.children], and the result is what it holds
    when the callback returns. *)
Definition patchMessageContextMenu (children : list MenuItem)
  (props : option MenuProps) (st : State) : list MenuItem :=
match props with
| Some {| message := Some m |} =>
    let pinItem :=
      button (if isPinned (Message.id m) st
              then "Unpin for Me" else "Pin for Me") m in
    (children ++ [separator]) ++ [pinItem]
| Some {| message := None |} => children
| None => children
end.

(** The user picks a menu entry; [now] is the clock when the action
    runs.  The host's own entries are outside the plugin. *)
Definition pick (now : Z) (item : MenuItem) (st : State) : State :=
match item with
| button _ m => togglePin now m st
| hostItem _ => st
| separator => st
end.

End ClientPinnedMessages.

(** ** AlwaysConnected: the plugin *)

Module AlwaysConnected.

(** *** Settings *)

Inductive OptionType : Type := NUMBER.

(** The definition of one option, as written in the source. *)
Record OptionDef : Type := mkOptionDef {
  description : string;
  type : OptionType;
  default : Z;
  restartNeeded : bool
}.

(** Modelled from the spec: [definePluginSettings] (module
    [@api/Settings]) is not among the sources.  The spec lists one
    user-facing numeric option, the delay between reconnect attempts.
    The settings object keeps the definition of that option under the
    name the plugin reads it by, [settings.autoRejoinDelay], and next
    to it the value the user has configured for it. *)
Record Settings : Type := mkSettings {
  autoRejoinDelay : OptionDef;
  configured : Z
}.

Definition definePluginSettings (def : OptionDef) (userValue : Z) : Settings :=
  {| autoRejoinDelay := def; configured := userValue |}.

(** [const settings = definePluginSettings({ autoRejoinDelay: ... })],
    for a user who has set the option to [userValue]. *)
Definition settings (userValue : Z) : Settings :=
  definePluginSettings
    {| description := "Delay between reconnect attempts (in ms)";
       type := NUMBER;
       default := 30000;
       restartNeeded := false |}
    userValue.

(** *** The host, as seen from one handler *)

(** [window.VoiceService.join]: missing or not a function, or a
    function whose call returns or throws. *)
Inductive JoinMember : Type :=
| NotAFunction
| Function (outcome : Js.Call unit).

(** The three globals the plugin reads.  [None] is an absent (falsy)
    global.  [getConnection()] is kept by its truthiness. *)
Record Window : Type := mkWindow {
  VoiceConnectionStore : option (Js.Call bool);
  SelectedChannelStore : option (Js.Call (option string));
  VoiceService : option JoinMember
}.

(** Calls the plugin issues to its collaborators. *)
Inductive Effect : Type :=
| VoiceService_join (channelId : string)
| Native_nativeKeepAlive (channelId : string)
| setTimeout (delay : Z).

(** *** Plugin state *)

(** A pending [setTimeout] callback of [attemptRejoin]: the variables
    its closure captured and the delay it was scheduled with. *)
Record Retry : Type := mkRetry {
  channelId : string;
  baseDelay : Z;
  attempt : Z;
  delay : Z
}.

(** The plugin object's fields, the store, and the timers that are
    alive: interval timers by handle with their period, and the
    pending retry callbacks in the order they were scheduled. *)
Record World : Type := mkWorld {
  monitorInterval : option nat;
  lastVoiceChannel : option string;
  wasManuallyDisconnected : bool;
  db : gmap string DataStore.Value;
  intervals : gmap nat Z;
  timeouts : list Retry;
  nextTimer : nat
}.

Definition dataStoreKey : string := "AlwaysConnected_lastVoiceChannel".

Definition maxDelay : Z := 60000.

Definition setLastVoiceChannel (c : option string) (st : World) : World :=
  mkWorld (monitorInterval st) c (wasManuallyDisconnected st) (db st)
          (intervals st) (timeouts st) (nextTimer st).

Definition setWasManuallyDisconnected (b : bool) (st : World) : World :=
  mkWorld (monitorInterval st) (lastVoiceChannel st) b (db st)
          (intervals st) (timeouts st) (nextTimer st).

Definition setDb (d : gmap string DataStore.Value) (st : World) : World :=
  mkWorld (monitorInterval st) (lastVoiceChannel st)
          (wasManuallyDisconnected st) d
          (intervals st) (timeouts st) (nextTimer st).

Definition setTimeouts (ts : list Retry) (st : World) : World :=
  mkWorld (monitorInterval st) (lastVoiceChannel st)
          (wasManuallyDisconnected st) (db st)
          (intervals st) ts (nextTimer st).

(** *** Methods *)

Definition isConnected (w : Window) : bool :=
  match VoiceConnectionStore w with
  | Some (Js.Returns voiceConn) => voiceConn
  | Some Js.Throws => false
  | None => false
  end.

Definition getCurrentVoiceChannelId (w : Window) : option string :=
  match SelectedChannelStore w with
  | Some (Js.Returns channelId) => channelId
  | Some Js.Throws => None
  | None => None
  end.

(** The guarded [window.VoiceService.join(channelId)] inside the
    [try]: the call is issued when [join] is a function, and an
    exception it raises is caught. *)
Definition tryJoin (w : Window) (channelId : string) : list Effect :=
  match VoiceService w with
  | Some (Function _) => [VoiceService_join channelId]
  | Some NotAFunction => []
  | None => []
  end.

(** The closure [attemptRejoin] of [autoRejoin]; [channelId] and
    [baseDelay] are the constants it captured. *)
Definition attemptRejoin (w : Window) (channelId : string) (baseDelay : Z)
  (attempt : Z) (st : World) : World * list Effect :=
  let delay := Z.min (baseDelay * (attempt + 1)) maxDelay in
  (setTimeouts (timeouts st ++ [mkRetry channelId baseDelay attempt delay]) st,
   tryJoin w channelId ++ [setTimeout delay]).

(** The callback handed to [setTimeout], run when it fires. *)
Definition recheck (w : Window) (r : Retry) (st : World)
  : World * list Effect :=
  if negb (isConnected w)
  then attemptRejoin w (channelId r) (baseDelay r) (attempt r + 1) st
  else (st, []).

Definition autoRejoin (s : Settings) (w : Window) (st : World)
  : World * list Effect :=
  let channelId := Js.or (lastVoiceChannel st) (getCurrentVoiceChannelId w) in
  match channelId with
  | Some c =>
      if Js.truthy channelId
      then attemptRejoin w c (default (autoRejoinDelay s)) 0 st
      else (st, [])
  | None => (st, [])
  end.

(** [Native.nativeKeepAlive(this.lastVoiceChannel)] under its guard. *)
Definition keepAlive (st : World) : list Effect :=
  match lastVoiceChannel st with
  | Some c => if Js.truthy (Some c) then [Native_nativeKeepAlive c] else []
  | None => []
  end.

(** [(await DataStore.get<string>(key)) ?? null], read at the type
    the source gives it. *)
Definition storedChannel (d : gmap string DataStore.Value) : option string :=
  match DataStore.get dataStoreKey d with
  | Some (DataStore.Str c) => Some c
  | _ => None
  end.

(** [start]; the awaited read is answered from the store as it is
    when [start] is called. *)
Definition start (s : Settings) (w : Window) (st : World)
  : World * list Effect :=
  let st1 := setLastVoiceChannel (storedChannel (db st)) st in
  let '(st2, rejoined) :=
    if Js.truthy (lastVoiceChannel st1) && negb (isConnected w)
    then autoRejoin s w st1
    else (st1, []) in
  let kept := keepAlive st2 in
  let h := nextTimer st2 in
  (mkWorld (Some h) (lastVoiceChannel st2) (wasManuallyDisconnected st2)
           (db st2) (<[h := 3000]> (intervals st2)) (timeouts st2) (S h),
   rejoined ++ kept).

Definition stop (st : World) : World :=
  match monitorInterval st with
  | Some h =>
      mkWorld None (lastVoiceChannel st) (wasManuallyDisconnected st)
              (db st) (delete h (intervals st)) (timeouts st) (nextTimer st)
  | None => st
  end.

(** The callback of the 3000 ms interval. *)
Definition tick (s : Settings) (w : Window) (st : World)
  : World * list Effect :=
  if negb (isConnected w) && negb (wasManuallyDisconnected st)
  then
    let '(st1, rejoined) := autoRejoin s w st in
    (st1, rejoined ++ keepAlive st1)
  else if isConnected w
  then
    let st1 := setWasManuallyDisconnected false st in
    let current := getCurrentVoiceChannelId w in
    match current with
    | Some c =>
        if Js.truthy current
        then (setDb (DataStore.set dataStoreKey (DataStore.Str c) (db st1))
                    (setLastVoiceChannel current st1), [])
        else (st1, [])
    | None => (st1, [])
    end
  else (st, []).

(** flux.VOICE_STATE_UPDATES *)
Definition onVoiceStateUpdates (updates : list VoiceState.t) (st : World)
  : World :=
  if existsb (fun u => match VoiceState.channelId u with
                       | None => true
                       | Some _ => false
                       end) updates
  then setWasManuallyDisconnected true st
  else st.

(** flux.CONNECTION_OPEN *)
Definition onConnectionOpen (st : World) : World :=
  setWasManuallyDisconnected false st.

(** The pending retry at position [i] fires: it leaves the queue and
    its callback runs. *)
Definition fire (i : nat) (w : Window) (st : World) : World * list Effect :=
  match timeouts st !! i with
  | Some r => recheck w r (setTimeouts (delete i (timeouts st)) st)
  | None => (st, [])
  end.

(** *** Runs *)

(** What can happen to a started plugin.  [Tick] and [Timeout] carry
    the host as the callback finds it. *)
Inductive Event : Type :=
| Start (w : Window)
| Stop
| VOICE_STATE_UPDATES (updates : list VoiceState.t)
| CONNECTION_OPEN
| Tick (w : Window)
| Timeout (i : nat) (w : Window).

Definition step (s : Settings) (ev : Event) (st : World)
  : World * list Effect :=
  match ev with
  | Start w => start s w st
  | Stop => (stop st, [])
  | VOICE_STATE_UPDATES updates => (onVoiceStateUpdates updates st, [])
  | CONNECTION_OPEN => (onConnectionOpen st, [])
  | Tick w => tick s w st
  | Timeout i w => fire i w st
  end.

Fixpoint run (s : Settings) (evs : list Event) (st : World)
  : World * list Effect :=
  match evs with
  | [] => (st, [])
  | ev :: rest =>
      let '(st1, out1) := step s ev st in
      let '(st2, out2) := run s rest st1 in
      (st2, out1 ++ out2)
  end.

(** *** Reading a trace *)

Definition joins (out : list Effect) : list string :=
  omap (fun e => match e with VoiceService_join c => Some c | _ => None end)
       out.

Definition delays (out : list Effect) : list Z :=
  omap (fun e => match e with setTimeout d => Some d | _ => None end) out.

Definition isConnectionOpen (ev : Event) : bool :=
  match ev with CONNECTION_OPEN => true | _ => false end.

(** A tick whose callback finds the voice connection present. *)
Definition isConnectedTick (ev : Event) : bool :=
  match ev with Tick w => isConnected w | _ => false end.

Definition hasNullChannel (updates : list VoiceState.t) : bool :=
  existsb (fun u => match VoiceState.channelId u with
                    | None => true
                    | Some _ => false
                    end) updates.

(** A plugin object as the source initialises it, over a given store. *)
Definition initial (d : gmap string DataStore.Value) : World :=
  mkWorld None None false d ∅ [] 1%nat.

(** *** Sample hosts and states *)

(** A host whose connection is gone, with a working [join] and no
    channel selected; a host whose connection is present, on channel
    42; and a plugin that remembers channel 42. *)
Definition down : Window :=
mkWindow (Some (Js.Returns false)) None (Some (Function (Js.Returns tt))).

Definition up : Window :=
mkWindow (Some (Js.Returns true)) (Some (Js.Returns (Some "42"%string)))
         (Some (Function (Js.Returns tt))).

Definition remembering42 : World :=
setLastVoiceChannel (Some "42"%string) (initial ∅).

(** *** The retry loop, attempt by attempt *)

(** The delays of attempts [k], [k+1], ..., [k+n-1] for a base delay. *)
Definition schedule (base : Z) (k n : nat) : list Z :=
List.map (fun j => Z.min (base * (Z.of_nat j + 1)) 60000) (seq k n).

(** The pending callback of attempt [k] of a loop on channel [c]. *)
Definition pending (c : string) (base : Z) (k : nat) : Retry :=
mkRetry c base (Z.of_nat k) (Z.min (base * (Z.of_nat k + 1)) maxDelay).

(** *** Well-formed retries and calls *)

(** A pending retry as [autoRejoin] makes them: a non-empty channel id,
    the base delay of the option's definition, a non-negative attempt
    counter. *)
Definition properRetry (r : Retry) : Prop :=
channelId r <> ""%string /\ baseDelay r = 30000 /\ 0 <= attempt r.

(** A call with a non-empty channel id, or a timer set between the
    base delay and the cap. *)
Definition properCall (e : Effect) : Prop :=
match e with
| VoiceService_join c => c <> ""%string
| Native_nativeKeepAlive c => c <> ""%string
| setTimeout d => 30000 <= d <= 60000
end.

End AlwaysConnected.

(** ** AlwaysConnected: the native companion *)

Module Native.

(** The state file, by what [loadChannelId] can get out of it:
    [Missing] when reading fails, [Corrupt] when the text does not
    parse or holds no channel id, [Saved c] for the text
    [JSON.stringify({ channelId: c })] that [saveChannelId] writes. *)
Inductive StateFile : Type :=
| Missing
| Corrupt
| Saved (channelId : string).

(** What [writeFileSync (stateFile, text, "utf8")] does.  It opens the
    file for writing, which empties it, and then writes the text:
    [Written] when it returns; [Refused] when it throws before the file
    is opened, so that the file is as it was; [Broken] when it throws
    after the open, so that the file is left empty or with a proper
    prefix of the text, neither of which parses. *)
Inductive WriteOutcome : Type :=
| Written
| Refused
| Broken.

(** The process environment as one handler finds it: what a write of
    the state file does, the global [VoiceConnectionStore]
    ([None] when nullish, else the truthiness of [getConnection()]),
    what [FluxDispatcher.dispatch] does, and what [exec("tasklist")]
    hands to its callback (standard output, or an error). *)
Record Host : Type := mkHost {
  write : WriteOutcome;
  VoiceConnectionStore : option (Js.Call bool);
  dispatch : Js.Call unit;
  tasklist : Js.Call string
}.

Inductive Effect : Type :=
| FluxDispatcher_dispatch (type : string) (updates : list VoiceState.t)
| exec (command : string).

Record State : Type := mkState {
  nativeMonitorInterval : option nat;
  stateFile : StateFile;
  intervals : gmap nat Z;
  nextTimer : nat
}.

(** The exception of a failed write is caught and logged. *)
Definition saveChannelId (h : Host) (channelId : string) (st : State) : State :=
  match write h with
  | Written =>
      mkState (nativeMonitorInterval st) (Saved channelId)
              (intervals st) (nextTimer st)
  | Refused => st
  | Broken =>
      mkState (nativeMonitorInterval st) Corrupt
              (intervals st) (nextTimer st)
  end.

Definition loadChannelId (st : State) : option string :=
  match stateFile st with
  | Saved channelId => Some channelId
  | Missing => None
  | Corrupt => None
  end.

(** The value [isDiscordRunning] passes to its callback. *)
Definition isDiscordRunning (h : Host) : bool * list Effect :=
  (match tasklist h with
   | Js.Throws => false
   | Js.Returns stdout => Js.includes "discord.exe" (Js.toLowerCase stdout)
   end,
   [exec "tasklist"]).

(** [rejoinChannel]: the action is dispatched inside a [try]; the
    outcome of the dispatch is looked at only to log an exception. *)
Definition rejoinChannel (h : Host) (channelId : string) : list Effect :=
  let action :=
    FluxDispatcher_dispatch "VOICE_STATE_UPDATES"
      [VoiceState.mk (Some channelId) None false false] in
  match dispatch h with
  | Js.Returns _ => [action]
  | Js.Throws => [action]
  end.

(** The callback of the 5000 ms interval.  It throws when
    [getConnection()] does. *)
Definition monitorTick (h : Host) (st : State) : Js.Call (list Effect) :=
  let storedChannelId := loadChannelId st in
  match storedChannelId with
  | Some c =>
      if negb (Js.truthy storedChannelId)
      then Js.Returns []
      else
        match VoiceConnectionStore h with
        | None => Js.Returns (rejoinChannel h c)
        | Some (Js.Returns connection) =>
            if negb connection
            then Js.Returns (rejoinChannel h c)
            else Js.Returns []
        | Some Js.Throws => Js.Throws
        end
  | None => Js.Returns []
  end.

Definition startNativeMonitor (h : Host) (channelId : string) (st : State)
  : State :=
  let st1 := saveChannelId h channelId st in
  match nativeMonitorInterval st1 with
  | Some _ => st1
  | None =>
      let t := nextTimer st1 in
      mkState (Some t) (stateFile st1) (<[t := 5000]> (intervals st1)) (S t)
  end.

Definition stopNativeMonitor (st : State) : State :=
  match nativeMonitorInterval st with
  | Some t => mkState None (stateFile st) (delete t (intervals st)) (nextTimer st)
  | None => st
  end.

Definition nativeKeepAlive (h : Host) (channelId : string) (st : State)
  : State :=
  let st1 := saveChannelId h channelId st in
  match nativeMonitorInterval st1 with
  | None => startNativeMonitor h channelId st1
  | Some _ => st1
  end.

Definition executed (out : list Effect) : list string :=
  omap (fun e => match e with
                 | exec command => Some command
                 | FluxDispatcher_dispatch _ _ => None
                 end) out.

(** The action [rejoinChannel] dispatches for a channel id. *)
Definition rejoinAction (c : string) : Effect :=
FluxDispatcher_dispatch "VOICE_STATE_UPDATES"
  [VoiceState.mk (Some c) None false false].

(** The host [h] with another outcome of [FluxDispatcher.dispatch]. *)
Definition withDispatch (outcome : Js.Call unit) (h : Host) : Host :=
mkHost (write h) (VoiceConnectionStore h) outcome (tasklist h).

(** The host [h] with another answer of [exec("tasklist")]. *)
Definition withTasklist (listing : Js.Call string) (h : Host) : Host :=
mkHost (write h) (VoiceConnectionStore h) (dispatch h) listing.

(** The calls of a callback that returned; none when it threw. *)
Definition calls (r : Js.Call (list Effect)) : list Effect :=
match r with
| Js.Returns out => out
| Js.Throws => []
end.

(** *** Requests to the companion *)

(** The three exported functions, as requests arriving one after the
    other; each finds the process environment [h] of its moment. *)
Inductive Request : Type :=
| KeepAlive (h : Host) (channelId : string)
| StartMonitor (h : Host) (channelId : string)
| StopMonitor.

Definition serve (st : State) (r : Request) : State :=
match r with
| KeepAlive h channelId => nativeKeepAlive h channelId st
| StartMonitor h channelId => startNativeMonitor h channelId st
| StopMonitor => stopNativeMonitor st
end.

Definition serveAll (rs : list Request) (st : State) : State :=
fold_left serve rs st.

(** The handle and the live intervals agree: the interval of the
    handle is the only one alive, with period 5000, and none is alive
    without a handle. *)
Definition tracked (st : State) : Prop :=
match nativeMonitorInterval st with
| Some t => intervals st = {[t := 5000]}
| None => intervals st = ∅
end.

(** The module as it is loaded: no monitor, whatever the state file. *)
Definition loaded (file : StateFile) : State :=
mkState None file ∅ 1%nat.

End Native.

(** * Properties *)

(** ** The pin store *)

Module PinStore.
Import ClientPinnedMessages.

Lemma holds_app messageId pins pins' :
  holds messageId (pins ++ pins') = holds messageId pins || holds messageId pins'.
Proof. apply existsb_app. Qed.

Lemma holds_cons messageId pin pins :
  holds messageId (pin :: pins)
  = String.eqb (PinnedMessage.id pin) messageId || holds messageId pins.
Proof. reflexivity. Qed.

Lemma without_cons removed pin pins :
  without removed (pin :: pins)
  = if String.eqb (PinnedMessage.id pin) removed
    then without removed pins
    else pin :: without removed pins.
Proof.
  unfold without. cbn [List.filter].
  now destruct (String.eqb (PinnedMessage.id pin) removed).
Qed.

Lemma holds_without messageId removed pins :
  holds messageId (without removed pins)
  = holds messageId pins && negb (String.eqb removed messageId).
Proof.
  induction pins as [|pin pins IH]; [reflexivity|].
  rewrite without_cons, holds_cons.
  destruct (String.eqb_spec (PinnedMessage.id pin) removed) as [Heq|Hne].
  - rewrite IH, Heq.
    destruct (String.eqb removed messageId); cbn; [now rewrite andb_false_r|reflexivity].
  - rewrite holds_cons, IH.
    destruct (String.eqb_spec (PinnedMessage.id pin) messageId) as [Heq|Hne'];
      cbn; [|reflexivity].
    destruct (String.eqb_spec removed messageId) as [Heq'|_]; [congruence|reflexivity].
Qed.

Lemma holds_false_not_elem messageId pins :
  holds messageId pins = false -> messageId ∉ ids pins.
Proof.
  induction pins as [|pin pins IH]; cbn; [intros _; apply not_elem_of_nil|].
  intros H. apply orb_false_elim in H as [Hpin Hrest].
  rewrite not_elem_of_cons. split; [|now apply IH].
  intros Heq. rewrite Heq, String.eqb_refl in Hpin. discriminate.
Qed.

Lemma elem_ids_without messageId removed pins :
  messageId ∈ ids (without removed pins) -> messageId ∈ ids pins.
Proof.
  induction pins as [|pin pins IH]; [trivial|].
  rewrite without_cons. cbn [ids List.map].
  destruct (String.eqb (PinnedMessage.id pin) removed);
    cbn [ids List.map]; rewrite ?elem_of_cons; tauto.
Qed.

Lemma NoDup_ids_without removed pins :
  NoDup (ids pins) -> NoDup (ids (without removed pins)).
Proof.
  induction pins as [|pin pins IH]; [trivial|].
  rewrite without_cons. cbn [ids List.map].
  rewrite NoDup_cons. intros [Hnotin Hrest].
  destruct (String.eqb (PinnedMessage.id pin) removed); [auto|].
  cbn [ids List.map]. rewrite NoDup_cons. split; [|auto].
  intros Hin. apply Hnotin. eapply elem_ids_without, Hin.
Qed.

Lemma NoDup_ids_push pin pins :
  NoDup (ids pins) -> holds (PinnedMessage.id pin) pins = false ->
  NoDup (ids (pins ++ [pin])).
Proof.
  intros Hnd Hfresh. unfold ids. rewrite List.map_app. cbn [List.map].
  rewrite NoDup_app. repeat split.
  - exact Hnd.
  - intros x Hx Hin. apply list_elem_of_singleton in Hin. subst x.
    now apply (holds_false_not_elem _ _ Hfresh).
  - apply NoDup_singleton.
Qed.

(** One toggle flips the pinned status of its own id and of no other. *)
Lemma isPinned_togglePin messageId now message st :
  isPinned messageId (togglePin now message st)
  = xorb (String.eqb (Message.id message) messageId) (isPinned messageId st).
Proof.
  unfold togglePin, isPinned. cbn [pinnedMessages].
  fold (holds (Message.id message) (pinnedMessages st)).
  fold (holds messageId (pinnedMessages st)).
  destruct (holds (Message.id message) (pinnedMessages st)) eqn:Hm.
  - fold (holds messageId (without (Message.id message) (pinnedMessages st))).
    rewrite holds_without.
    destruct (String.eqb_spec (Message.id message) messageId) as [Heq|Hne]; cbn.
    + rewrite <- Heq, Hm. reflexivity.
    + now rewrite andb_true_r.
  - fold (holds messageId (pinnedMessages st ++ [newPin now message])).
    rewrite holds_app. cbn. rewrite orb_false_r.
    destruct (String.eqb_spec (Message.id message) messageId) as [Heq|Hne]; cbn.
    + rewrite <- Heq, Hm. reflexivity.
    + now rewrite orb_false_r.
Qed.

Lemma isPinned_toggleAll messageId calls : forall st,
  isPinned messageId (toggleAll calls st)
  = xorb (isPinned messageId st) (Nat.odd (togglesOf messageId calls)).
Proof.
  induction calls as [|[now message] calls IH]; intros st.
  - cbn. now rewrite xorb_false_r.
  - unfold toggleAll in *. cbn [fold_left fst snd].
    rewrite IH, isPinned_togglePin.
    unfold togglesOf. cbn [List.filter snd].
    destruct (String.eqb (Message.id message) messageId); cbn [length xorb].
    + rewrite Nat.odd_succ, <- Nat.negb_odd.
      destruct (isPinned messageId st), (Nat.odd _); reflexivity.
    + reflexivity.
Qed.

(** C1.  Starting from an empty pin list, after any finite sequence of
    [togglePin] calls a message id is pinned exactly when the number of
    calls made on that id is odd. *)
Theorem togglePin_parity (db0 : gmap string DataStore.Value)
  (calls : list (Z * Message.t)) (messageId : string) :
  isPinned messageId (toggleAll calls (empty db0))
  = Nat.odd (togglesOf messageId calls).
Proof.
  rewrite isPinned_toggleAll. reflexivity.
Qed.

Lemma NoDup_ids_apply st op :
  NoDup (ids (pinnedMessages st)) -> NoDup (ids (pinnedMessages (apply st op))).
Proof.
  intros Hnd. destruct op as [now message|pin]; cbn.
  - unfold togglePin. cbn [pinnedMessages].
    destruct (isPinned (Message.id message) st) eqn:Hp.
    + now apply NoDup_ids_without.
    + now apply NoDup_ids_push.
  - now apply NoDup_ids_without.
Qed.

Lemma NoDup_ids_run ops : forall st,
  NoDup (ids (pinnedMessages st)) -> NoDup (ids (pinnedMessages (run ops st))).
Proof.
  induction ops as [|op ops IH]; intros st Hnd; [exact Hnd|].
  unfold run in *. cbn [fold_left]. apply IH. now apply NoDup_ids_apply.
Qed.

(** C7.  Starting from an empty pin list, every list reached through
    [togglePin] calls and clicks on the Unpin button holds pairwise
    distinct message ids. *)
Theorem pinned_ids_unique (db0 : gmap string DataStore.Value)
  (ops : list Op) :
  NoDup (ids (pinnedMessages (run ops (empty db0)))).
Proof.
  apply NoDup_ids_run. cbn. apply NoDup_nil_2.
Qed.

Lemma not_elem_ids_without messageId pins :
  messageId ∉ ids (without messageId pins).
Proof.
  apply holds_false_not_elem.
  rewrite holds_without, String.eqb_refl. apply andb_false_r.
Qed.

(** C3.  [togglePin] on a message whose id is pinned keeps exactly the
    records with another id, so none with that id is left; on a message
    whose id is not pinned it appends the one record built from the
    message and the clock.  Either way the resulting list is stored
    under ClientPinnedMessages.  Pinning the message 5 of channel 10
    with content hi by bob on the empty list leaves the single record
    of author bob, and a second toggle leaves the empty list. *)
Theorem togglePin_contract (now : Z) (message : Message.t) (st : State) :
  let st' := togglePin now message st in
  (isPinned (Message.id message) st = true ->
     pinnedMessages st'
     = List.filter
         (fun pin => negb (String.eqb (PinnedMessage.id pin) (Message.id message)))
         (pinnedMessages st)
     /\ Message.id message ∉ ids (pinnedMessages st'))
  /\ (isPinned (Message.id message) st = false ->
      pinnedMessages st'
      = pinnedMessages st
        ++ [PinnedMessage.mk (Message.id message) (Message.channel_id message)
              (Message.content message) (Message.author_username message) now])
  /\ db st' = <["ClientPinnedMessages" := DataStore.Pins (pinnedMessages st')]> (db st)
  /\ loadPinnedMessages (db st') = pinnedMessages st'
  /\ (forall (db0 : gmap string DataStore.Value) (now1 now2 : Z),
        let bob := Message.mk "5" "10" "hi" "bob" in
        pinnedMessages (togglePin now1 bob (empty db0))
        = [PinnedMessage.mk "5" "10" "hi" "bob" now1]
        /\ pinnedMessages (togglePin now2 bob (togglePin now1 bob (empty db0))) = []).
Proof.
  cbv zeta. repeat split.
  - unfold togglePin. cbn [pinnedMessages]. rewrite H. reflexivity.
  - unfold togglePin. cbn [pinnedMessages]. rewrite H.
    apply not_elem_ids_without.
  - intros H. unfold togglePin. cbn [pinnedMessages]. rewrite H. reflexivity.
  - unfold loadPinnedMessages, togglePin, savePinnedMessages, DataStore.get,
      DataStore.set. cbn [db pinnedMessages].
    now rewrite lookup_insert_eq.
Qed.

Lemma togglePin_contract_unpins :
  let message := Message.mk "5" "10" "hi" "bob" in
  let st := mkState [PinnedMessage.mk "7" "10" "yo" "eve" 1;
                     PinnedMessage.mk "5" "10" "hi" "bob" 2] ∅ in
  isPinned (Message.id message) st = true
  /\ pinnedMessages (togglePin 3 message st)
     = [PinnedMessage.mk "7" "10" "yo" "eve" 1].
Proof.
  split; [reflexivity|].
  refine (eq_trans (proj1 (proj1 (togglePin_contract 3 _ _) _)) _);
    reflexivity.
Defined.

End PinStore.

(** ** The reconnect monitor *)

Module Reconnect.
Import AlwaysConnected.

Lemma run_cons s ev evs st :
  run s (ev :: evs) st
  = (fst (run s evs (fst (step s ev st))),
     snd (step s ev st) ++ snd (run s evs (fst (step s ev st)))).
Proof.
  cbn [run]. destruct (step s ev st) as [st1 out1]. cbn [fst snd].
  now destruct (run s evs st1).
Qed.

(** *** What the retry loop leaves untouched *)

Lemma attemptRejoin_frame w c base k st :
  let st' := fst (attemptRejoin w c base k st) in
  wasManuallyDisconnected st' = wasManuallyDisconnected st
  /\ db st' = db st
  /\ lastVoiceChannel st' = lastVoiceChannel st.
Proof. cbn. auto. Qed.

Lemma autoRejoin_frame s w st :
  let st' := fst (autoRejoin s w st) in
  wasManuallyDisconnected st' = wasManuallyDisconnected st
  /\ db st' = db st
  /\ lastVoiceChannel st' = lastVoiceChannel st.
Proof.
  unfold autoRejoin.
  destruct (Js.or (lastVoiceChannel st) (getCurrentVoiceChannelId w)) as [c|];
    [|cbn; auto].
  destruct (Js.truthy (Some c)); [apply attemptRejoin_frame|cbn; auto].
Qed.

Lemma fire_frame i w st :
  let st' := fst (fire i w st) in
  wasManuallyDisconnected st' = wasManuallyDisconnected st
  /\ db st' = db st
  /\ lastVoiceChannel st' = lastVoiceChannel st.
Proof.
  unfold fire. destruct (timeouts st !! i) as [r|]; [|cbn; auto].
  unfold recheck. destruct (negb (isConnected w)); cbn; auto.
Qed.

Lemma start_frame s w st :
  let st' := fst (start s w st) in
  wasManuallyDisconnected st' = wasManuallyDisconnected st
  /\ db st' = db st.
Proof.
  unfold start.
  set (st1 := setLastVoiceChannel (storedChannel (db st)) st).
  destruct (Js.truthy (lastVoiceChannel st1) && negb (isConnected w)).
  - pose proof (autoRejoin_frame s w st1) as (Hflag & Hdb & _).
    destruct (autoRejoin s w st1) as [st2 out]. cbn in *. auto.
  - cbn. auto.
Qed.

Lemma stop_frame st :
  wasManuallyDisconnected (stop st) = wasManuallyDisconnected st
  /\ db (stop st) = db st
  /\ lastVoiceChannel (stop st) = lastVoiceChannel st.
Proof. unfold stop. destruct (monitorInterval st); cbn; auto. Qed.

Lemma onVoiceStateUpdates_frame updates st :
  db (onVoiceStateUpdates updates st) = db st
  /\ lastVoiceChannel (onVoiceStateUpdates updates st) = lastVoiceChannel st.
Proof. unfold onVoiceStateUpdates. destruct (existsb _ updates); cbn; auto. Qed.

(** A tick that finds the flag set starts no rejoin: it issues no call
    and schedules nothing. *)
Lemma tick_suppressed s w st :
  wasManuallyDisconnected st = true ->
  snd (tick s w st) = [] /\ timeouts (fst (tick s w st)) = timeouts st.
Proof.
  intros Hflag. unfold tick. rewrite Hflag, andb_false_r.
  destruct (isConnected w); [|cbn; auto].
  destruct (getCurrentVoiceChannelId w) as [c|]; [|cbn; auto].
  destruct (Js.truthy (Some c)); cbn; auto.
Qed.

(** The flag stays set across every event other than CONNECTION_OPEN
    and a tick that finds the connection present. *)
Lemma flag_kept s ev st :
  isConnectionOpen ev = false -> isConnectedTick ev = false ->
  wasManuallyDisconnected st = true ->
  wasManuallyDisconnected (fst (step s ev st)) = true.
Proof.
  intros Hopen Htick Hflag. destruct ev as [w| |updates| |w|i w]; cbn [step fst].
  - destruct (start_frame s w st) as [-> _]. exact Hflag.
  - destruct (stop_frame st) as [-> _]. exact Hflag.
  - unfold onVoiceStateUpdates. destruct (existsb _ updates); [reflexivity|exact Hflag].
  - discriminate.
  - cbn in Htick. unfold tick. rewrite Htick, Hflag. exact Hflag.
  - destruct (fire_frame i w st) as [-> _]. exact Hflag.
Qed.

Lemma flag_kept_run s evs : forall st,
  forallb (fun ev => negb (isConnectionOpen ev) && negb (isConnectedTick ev)) evs
  = true ->
  wasManuallyDisconnected st = true ->
  wasManuallyDisconnected (fst (run s evs st)) = true.
Proof.
  induction evs as [|ev evs IH]; intros st Hall Hflag; [exact Hflag|].
  cbn [forallb] in Hall. apply andb_prop in Hall as [Hev Hall].
  apply andb_prop in Hev as [Hopen Htick].
  apply negb_true_iff in Hopen, Htick.
  pose proof (flag_kept s ev st Hopen Htick Hflag) as Hstep.
  rewrite run_cons. cbn [fst]. now apply IH.
Qed.

(** *** Manual disconnects *)

(** C2, the claim as stated fails.  A null-channel update is followed
    by a tick that finds the connection present, which clears the flag;
    no CONNECTION_OPEN has been seen, and the next tick that finds the
    connection gone calls [join] on channel 42. *)
Lemma rejoin_without_connection_open :
  let nullUpdate := VoiceState.mk None None false false in
  let seen := [VOICE_STATE_UPDATES [nullUpdate]; Tick up] in
  let st := fst (run (settings 30000) seen remembering42) in
  hasNullChannel [nullUpdate] = true
  /\ forallb (fun ev => negb (isConnectionOpen ev)) seen = true
  /\ wasManuallyDisconnected st = false
  /\ snd (tick (settings 30000) down st)
     = [VoiceService_join "42"; setTimeout 30000; Native_nativeKeepAlive "42"].
Proof. vm_compute. repeat split. Qed.

(** C2, as the code has it.  After a VOICE_STATE_UPDATES event in which
    some update carries a null channel id, and as long as neither a
    CONNECTION_OPEN event nor a tick that finds the connection present
    has been handled since, a monitor tick starts no rejoin: it issues
    no host call at all and schedules no retry. *)
Theorem manual_disconnect_suppression (s : Settings) (st : World)
  (updates : list VoiceState.t) (evs : list Event) (w : Window) :
  hasNullChannel updates = true ->
  forallb (fun ev => negb (isConnectionOpen ev) && negb (isConnectedTick ev)) evs
  = true ->
  let st1 := fst (run s (VOICE_STATE_UPDATES updates :: evs) st) in
  wasManuallyDisconnected st1 = true
  /\ snd (tick s w st1) = []
  /\ joins (snd (tick s w st1)) = []
  /\ timeouts (fst (tick s w st1)) = timeouts st1.
Proof.
  intros Hnull Hquiet st1.
  assert (Hflag : wasManuallyDisconnected st1 = true).
  { subst st1. rewrite run_cons. cbn [fst step].
    apply flag_kept_run; [exact Hquiet|].
    unfold onVoiceStateUpdates. fold (hasNullChannel updates).
    rewrite Hnull. reflexivity. }
  destruct (tick_suppressed s w st1 Hflag) as [Hout Htimers].
  rewrite Hout. auto.
Qed.

Lemma manual_disconnect_suppression_example :
  let nullUpdate := VoiceState.mk None None false false in
  let st1 :=
    fst (run (settings 30000)
           [VOICE_STATE_UPDATES [nullUpdate]; Tick down; Stop; Start down]
           remembering42) in
  joins (snd (tick (settings 30000) down st1)) = [].
Proof.
  exact (proj1 (proj2 (proj2
           (manual_disconnect_suppression (settings 30000) remembering42
              [VoiceState.mk None None false false]
              [Tick down; Stop; Start down] down eq_refl eq_refl)))).
Defined.

(** *** One tick, at most one join *)

(** C6, the claim as stated fails.  A freshly started plugin that knows
    no channel (nothing remembered, no channel selected) is down and
    not manually disconnected, and its tick calls [join] zero times. *)
Lemma tick_without_channel_joins_nothing :
  isConnected down = false
  /\ wasManuallyDisconnected (initial ∅) = false
  /\ joins (snd (tick (settings 30000) down (initial ∅))) = [].
Proof. vm_compute. repeat split. Qed.

Lemma joins_tryJoin w c :
  joins (tryJoin w c)
  = match VoiceService w with Some (Function _) => [c] | _ => [] end.
Proof.
  unfold tryJoin. destruct (VoiceService w) as [[|outcome]|]; reflexivity.
Qed.

Lemma joins_keepAlive st : joins (keepAlive st) = [].
Proof.
  unfold keepAlive. destruct (lastVoiceChannel st) as [c|]; [|reflexivity].
  destruct (Js.truthy (Some c)); reflexivity.
Qed.

Lemma joins_app out out' : joins (out ++ out') = joins out ++ joins out'.
Proof. apply omap_app. Qed.

Lemma joins_attemptRejoin w c base k st :
  joins (snd (attemptRejoin w c base k st))
  = match VoiceService w with Some (Function _) => [c] | _ => [] end.
Proof.
  cbn [attemptRejoin snd]. rewrite joins_app, joins_tryJoin. cbn.
  apply app_nil_r.
Qed.

(** C6, as the code has it.  When the connection is gone and the flag
    is clear, one tick calls [join] at most once: once, on the
    remembered channel or else the selected one, when that id is
    non-empty and [window.VoiceService.join] is a function, and not at
    all otherwise. *)
Theorem tick_joins_at_most_once (s : Settings) (w : Window) (st : World) :
  isConnected w = false ->
  wasManuallyDisconnected st = false ->
  joins (snd (tick s w st))
  = match Js.or (lastVoiceChannel st) (getCurrentVoiceChannelId w),
          VoiceService w with
    | Some c, Some (Function _) => if Js.truthy (Some c) then [c] else []
    | _, _ => []
    end
  /\ (length (joins (snd (tick s w st))) <= 1)%nat.
Proof.
  intros Hdown Hflag.
  assert (Heq : joins (snd (tick s w st))
    = match Js.or (lastVoiceChannel st) (getCurrentVoiceChannelId w),
            VoiceService w with
      | Some c, Some (Function _) => if Js.truthy (Some c) then [c] else []
      | _, _ => []
      end).
  { unfold tick. rewrite Hdown, Hflag. cbn [negb andb].
    destruct (autoRejoin s w st) as [st1 out] eqn:Hrejoin. cbn [snd].
    rewrite joins_app, joins_keepAlive, app_nil_r.
    replace out with (snd (autoRejoin s w st)) by now rewrite Hrejoin.
    unfold autoRejoin.
    destruct (Js.or (lastVoiceChannel st) (getCurrentVoiceChannelId w)) as [c|];
      [|reflexivity].
    destruct (Js.truthy (Some c)).
    - rewrite joins_attemptRejoin. reflexivity.
    - destruct (VoiceService w) as [[|outcome]|]; reflexivity. }
  split; [exact Heq|]. rewrite Heq.
  destruct (Js.or _ _) as [c|]; [|cbn; lia].
  destruct (VoiceService w) as [[|outcome]|]; cbn [length]; try lia.
  destruct (Js.truthy (Some c)); cbn; lia.
Qed.

Lemma tick_joins_at_most_once_example :
  joins (snd (tick (settings 30000) down remembering42)) = ["42"%string].
Proof.
  exact (proj1 (tick_joins_at_most_once (settings 30000) down remembering42
                  eq_refl eq_refl)).
Defined.

(** *** The retry loop *)

Lemma delays_app out out' : delays (out ++ out') = delays out ++ delays out'.
Proof. apply omap_app. Qed.

Lemma delays_tryJoin w c : delays (tryJoin w c) = [].
Proof.
  unfold tryJoin. destruct (VoiceService w) as [[|outcome]|]; reflexivity.
Qed.

Lemma delays_attemptRejoin w c base k st :
  delays (snd (attemptRejoin w c base k st))
  = [Z.min (base * (k + 1)) maxDelay].
Proof.
  cbn [attemptRejoin snd]. rewrite delays_app, delays_tryJoin. reflexivity.
Qed.

Lemma schedule_cons base k n :
  schedule base k (S n)
  = Z.min (base * (Z.of_nat k + 1)) 60000 :: schedule base (S k) n.
Proof. reflexivity. Qed.

(** The callback of attempt [k] fires and finds the connection gone:
    attempt [k+1] is made and its callback takes the same place. *)
Lemma fire_pending_down before c base k w st :
  timeouts st = before ++ [pending c base k] ->
  isConnected w = false ->
  timeouts (fst (fire (length before) w st)) = before ++ [pending c base (S k)]
  /\ snd (fire (length before) w st)
     = tryJoin w c ++ [setTimeout (Z.min (base * (Z.of_nat (S k) + 1)) maxDelay)].
Proof.
  intros Hq Hdown. unfold fire. rewrite Hq.
  rewrite (list_lookup_middle before [] _ (length before) eq_refl).
  rewrite delete_middle, app_nil_r.
  unfold recheck. rewrite Hdown. cbn [negb attemptRejoin fst snd timeouts setTimeouts pending
    channelId baseDelay attempt].
  replace (Z.of_nat k + 1) with (Z.of_nat (S k)) by lia.
  split; reflexivity.
Qed.

(** The callback fires and finds the connection present: the loop ends. *)
Lemma fire_pending_up before r w st :
  timeouts st = before ++ [r] ->
  isConnected w = true ->
  fire (length before) w st = (setTimeouts before st, []).
Proof.
  intros Hq Hup. unfold fire. rewrite Hq.
  rewrite (list_lookup_middle before [] _ (length before) eq_refl).
  rewrite delete_middle, app_nil_r.
  unfold recheck. rewrite Hup. reflexivity.
Qed.

Lemma run_pending_down s before c base ws : forall k st,
  timeouts st = before ++ [pending c base k] ->
  forallb (fun w => negb (isConnected w)) ws = true ->
  let chain := run s (List.map (Timeout (length before)) ws) st in
  timeouts (fst chain) = before ++ [pending c base (k + length ws)]
  /\ delays (snd chain) = schedule base (S k) (length ws).
Proof.
  induction ws as [|w ws IH]; intros k st Hq Hdown chain; subst chain.
  - cbn. rewrite Nat.add_0_r. auto.
  - cbn [forallb] in Hdown. apply andb_prop in Hdown as [Hw Hws].
    apply negb_true_iff in Hw.
    destruct (fire_pending_down before c base k w st Hq Hw) as [Hq' Hout].
    cbn [List.map]. rewrite run_cons. cbn [fst snd step].
    destruct (IH (S k) _ Hq' Hws) as [Hq'' Hdelays].
    split.
    + rewrite Hq''. cbn [length]. now rewrite Nat.add_succ_r.
    + rewrite delays_app, Hdelays, Hout, delays_app, delays_tryJoin.
      cbn [length]. rewrite schedule_cons. reflexivity.
Qed.

(** C4.  The base delay of the loop is 30000 ms.  Take a run of
    [autoRejoin] on a known channel, followed by any number of
    rechecks that all find the connection gone.  The delays scheduled
    are, in order, min (30000 * (k+1), 60000) for k = 0, 1, 2, ...;
    with three rechecks they are 30000, 60000, 60000, 60000.  However
    many rechecks there were, the next attempt is pending, so no
    attempt count ends the loop; a recheck that finds the connection
    present ends it: the callback is consumed, nothing is scheduled and
    nothing is called. *)
Theorem rejoin_backoff (userValue : Z) (w0 : Window) (ws : list Window)
  (st : World) (c : string) :
  Js.or (lastVoiceChannel st) (getCurrentVoiceChannelId w0) = Some c ->
  Js.truthy (Some c) = true ->
  forallb (fun w => negb (isConnected w)) ws = true ->
  let s := settings userValue in
  let place := length (timeouts st) in
  let first := autoRejoin s w0 st in
  let chain := run s (List.map (Timeout place) ws) (fst first) in
  timeouts (fst chain)
  = timeouts st
    ++ [mkRetry c 30000 (Z.of_nat (length ws))
          (Z.min (30000 * (Z.of_nat (length ws) + 1)) 60000)]
  /\ delays (snd first ++ snd chain)
     = List.map (fun k => Z.min (30000 * (Z.of_nat k + 1)) 60000)
         (seq 0 (S (length ws)))
  /\ (length ws = 3%nat ->
      delays (snd first ++ snd chain) = [30000; 60000; 60000; 60000])
  /\ (forall w, isConnected w = true ->
      fire place w (fst chain) = (setTimeouts (timeouts st) (fst chain), [])).
Proof.
  intros Hc Htruthy Hdown s place first chain.
  assert (Hfirst : first = attemptRejoin w0 c 30000 0 st).
  { subst first. unfold autoRejoin. rewrite Hc, Htruthy. reflexivity. }
  assert (Hq : timeouts (fst first) = timeouts st ++ [pending c 30000 0]).
  { rewrite Hfirst. reflexivity. }
  destruct (run_pending_down s (timeouts st) c 30000 ws 0%nat (fst first) Hq Hdown)
    as [Hq' Hdelays].
  fold place in Hq', Hdelays. fold chain in Hq', Hdelays.
  assert (Hall : delays (snd first ++ snd chain)
                 = schedule 30000 0 (S (length ws))).
  { rewrite delays_app, Hdelays, Hfirst, delays_attemptRejoin.
    rewrite schedule_cons. reflexivity. }
  repeat split.
  - rewrite Hq'. reflexivity.
  - exact Hall.
  - intros Hthree. rewrite Hall, Hthree. reflexivity.
  - intros w Hup. subst place.
    apply (fire_pending_up (timeouts st) _ w _ Hq' Hup).
Qed.

Lemma rejoin_backoff_first_four :
  let s := settings 30000 in
  let first := autoRejoin s down remembering42 in
  let chain := run s [Timeout 0 down; Timeout 0 down; Timeout 0 down] (fst first) in
  delays (snd first ++ snd chain) = [30000; 60000; 60000; 60000].
Proof.
  exact (proj1 (proj2 (proj2
           (rejoin_backoff 30000 down [down; down; down] remembering42 "42"
              eq_refl eq_refl eq_refl))) eq_refl).
Defined.

(** *** The configured delay *)

(** C5, on the code.  [autoRejoin] takes its base delay from the
    [default] field of the option's definition, so the plugin behaves
    the same whatever value the user has configured: with the option
    set to 10000 the first retry is scheduled after 30000 ms, where the
    configured value would give 10000 ms. *)
Theorem configured_delay_ignored :
  (forall (userValue userValue' : Z) (ev : Event) (st : World),
      step (settings userValue) ev st = step (settings userValue') ev st)
  /\ configured (settings 10000) = 10000
  /\ delays (snd (autoRejoin (settings 10000) down remembering42)) = [30000]
  /\ Z.min (configured (settings 10000) * (0 + 1)) 60000 = 10000.
Proof.
  split; [|vm_compute; repeat split].
  intros userValue userValue' ev st. destruct ev; reflexivity.
Qed.

(** *** The stored channel id *)

(** What a tick does to the store: it writes the selected channel id
    when the connection is present and that id is non-empty, and leaves
    the store alone otherwise. *)
Lemma tick_db s w st :
  db (fst (tick s w st)) = db st
  \/ exists c : string,
       isConnected w = true
       /\ getCurrentVoiceChannelId w = Some c
       /\ c <> ""%string
       /\ db (fst (tick s w st)) = <[dataStoreKey := DataStore.Str c]> (db st).
Proof.
  unfold tick.
  destruct (isConnected w) eqn:Hconn; cbn [negb andb].
  - destruct (getCurrentVoiceChannelId w) as [c|] eqn:Hcur; [|left; reflexivity].
    destruct (Js.truthy (Some c)) eqn:Htruthy; [|left; reflexivity].
    right. exists c. repeat split.
    intros ->. discriminate Htruthy.
  - destruct (wasManuallyDisconnected st); cbn [negb]; [left; reflexivity|].
    left. destruct (autoRejoin_frame s w st) as (_ & Hdb & _).
    destruct (autoRejoin s w st) as [st1 out]. exact Hdb.
Qed.

Lemma step_db s ev st :
  db (fst (step s ev st)) = db st
  \/ exists (w : Window) (c : string),
       ev = Tick w
       /\ isConnected w = true
       /\ getCurrentVoiceChannelId w = Some c
       /\ c <> ""%string
       /\ db (fst (step s ev st)) = <[dataStoreKey := DataStore.Str c]> (db st).
Proof.
  destruct ev as [w| |updates| |w|i w]; cbn [step fst].
  - left. apply start_frame.
  - left. apply stop_frame.
  - left. apply onVoiceStateUpdates_frame.
  - left. reflexivity.
  - destruct (tick_db s w st) as [Hsame|(c & H)]; [now left|].
    right. exists w, c. now split.
  - left. apply fire_frame.
Qed.

Lemma entry_kept_run s evs : forall st c,
  db st !! dataStoreKey = Some (DataStore.Str c) ->
  exists c', db (fst (run s evs st)) !! dataStoreKey = Some (DataStore.Str c').
Proof.
  induction evs as [|ev evs IH]; intros st c Hentry; [now exists c|].
  rewrite run_cons. cbn [fst].
  destruct (step_db s ev st) as [Hsame|(w & c' & _ & _ & _ & _ & Hset)].
  - apply (IH _ c). now rewrite Hsame.
  - apply (IH _ c'). rewrite Hset. apply lookup_insert_eq.
Qed.

(** C10.  An event changes the store only when it is a tick that finds
    the connection present and a non-empty selected channel id, and
    then it sets AlwaysConnected_lastVoiceChannel to that id and
    touches no other entry.  [start], [stop], the two flux handlers,
    [autoRejoin] and the retry callback leave the store as it is.  So
    an entry that holds a channel id holds one after any run: it is
    never removed and never set to null. *)
Theorem lastVoiceChannel_entry_frame (s : Settings) (st : World) :
  (forall ev : Event,
      db (fst (step s ev st)) = db st
      \/ exists (w : Window) (c : string),
           ev = Tick w
           /\ isConnected w = true
           /\ getCurrentVoiceChannelId w = Some c
           /\ c <> ""%string
           /\ db (fst (step s ev st))
              = <["AlwaysConnected_lastVoiceChannel" := DataStore.Str c]> (db st))
  /\ (forall w : Window, db (fst (start s w st)) = db st)
  /\ db (stop st) = db st
  /\ (forall updates, db (onVoiceStateUpdates updates st) = db st)
  /\ db (onConnectionOpen st) = db st
  /\ (forall w : Window, db (fst (autoRejoin s w st)) = db st)
  /\ (forall (i : nat) (w : Window), db (fst (fire i w st)) = db st)
  /\ (forall (evs : list Event) (c : string),
        db st !! "AlwaysConnected_lastVoiceChannel" = Some (DataStore.Str c) ->
        exists c',
          db (fst (run s evs st)) !! "AlwaysConnected_lastVoiceChannel"
          = Some (DataStore.Str c')).
Proof.
  split; [intros ev; apply step_db|].
  split; [intros w; apply start_frame|].
  split; [apply stop_frame|].
  split; [intros updates; apply onVoiceStateUpdates_frame|].
  split; [reflexivity|].
  split; [intros w; apply autoRejoin_frame|].
  split; [intros i w; apply fire_frame|].
  intros evs c. apply entry_kept_run.
Qed.

Lemma lastVoiceChannel_entry_survives :
  let st := initial {["AlwaysConnected_lastVoiceChannel"%string := DataStore.Str "42"]} in
  let evs := [Start down; VOICE_STATE_UPDATES [VoiceState.mk None None false false];
              Tick down; Stop] in
  exists c',
    db (fst (run (settings 30000) evs st)) !! "AlwaysConnected_lastVoiceChannel"
    = Some (DataStore.Str c').
Proof.
  refine (proj2 (proj2 (proj2 (proj2 (proj2 (proj2 (proj2
            (lastVoiceChannel_entry_frame (settings 30000) _))))))) _ "42"%string _).
  reflexivity.
Defined.

End Reconnect.

(** ** The native monitor *)

Module NativeMonitor.
Import Native.

Lemma rejoinChannel_action h c : rejoinChannel h c = [rejoinAction c].
Proof. unfold rejoinChannel. now destruct (dispatch h). Qed.

(** Enter the callback past its first guard: what is left is the case
    of a stored, non-empty channel id [c]. *)
Ltac past_stored_guard st c :=
  unfold monitorTick;
  destruct (loadChannelId st) as [c|]; [|reflexivity];
  destruct (negb (Js.truthy (Some c))); [reflexivity|].

(** C8.  The monitor is an interval of 5000 ms.  Its callback loads the
    channel id from the state file.  With no id there (a missing file,
    a file that does not parse or holds no id, or a file holding the
    empty id, which the code treats alike) it issues no call.  With a
    non-empty id in the file and a connection accessor that is absent
    or returns no connection, its one call is the dispatch of a
    VOICE_STATE_UPDATES action carrying the id of the file; with a
    connection it issues no call.  The outcome of the dispatch changes
    nothing: the callback behaves the same whether it returns or
    throws. *)
Theorem native_monitor_tick (h : Host) (st : State) :
  (forall c : string,
      nativeMonitorInterval st = None ->
      exists t : nat,
        nativeMonitorInterval (startNativeMonitor h c st) = Some t
        /\ intervals (startNativeMonitor h c st) !! t = Some 5000)
  /\ (stateFile st = Missing \/ stateFile st = Corrupt
      \/ stateFile st = Saved "" ->
      monitorTick h st = Js.Returns [])
  /\ (forall c : string,
        stateFile st = Saved c -> c <> ""%string ->
        VoiceConnectionStore h = None
        \/ VoiceConnectionStore h = Some (Js.Returns false) ->
        monitorTick h st
        = Js.Returns
            [FluxDispatcher_dispatch "VOICE_STATE_UPDATES"
               [VoiceState.mk (Some c) None false false]])
  /\ (VoiceConnectionStore h = Some (Js.Returns true) ->
      monitorTick h st = Js.Returns [])
  /\ (forall outcome : Js.Call unit,
        monitorTick (withDispatch outcome h) st = monitorTick h st).
Proof.
  split; [|split; [|split; [|split]]].
  - intros c Hnone. unfold startNativeMonitor.
    assert (Hsaved : nativeMonitorInterval (saveChannelId h c st) = None).
    { unfold saveChannelId. now destruct (write h). }
    rewrite Hsaved. eexists. split; [reflexivity|].
    cbn [intervals]. apply lookup_insert_eq.
  - intros Hfile. unfold monitorTick, loadChannelId.
    destruct Hfile as [-> | [-> | ->]]; reflexivity.
  - intros c Hfile Hne Hgone. unfold monitorTick, loadChannelId. rewrite Hfile.
    assert (Htruthy : Js.truthy (Some c) = true).
    { cbn. destruct (String.eqb_spec c ""); [contradiction|reflexivity]. }
    rewrite Htruthy. cbn [negb].
    destruct Hgone as [-> | ->]; cbn [negb]; now rewrite rejoinChannel_action.
  - intros Hup. unfold monitorTick. rewrite Hup.
    destruct (loadChannelId st) as [c|]; [|reflexivity].
    now destruct (negb (Js.truthy (Some c))).
  - intros outcome. past_stored_guard st c.
    cbn [withDispatch VoiceConnectionStore].
    rewrite !rejoinChannel_action. reflexivity.
Qed.

Lemma native_monitor_tick_dispatches :
  let h := mkHost Written (Some (Js.Returns false)) (Js.Returns tt) (Js.Returns ""%string) in
  let st := mkState (Some 1%nat) (Saved "42") {[1%nat := 5000]} 2 in
  monitorTick h st
  = Js.Returns
      [FluxDispatcher_dispatch "VOICE_STATE_UPDATES"
         [VoiceState.mk (Some "42"%string) None false false]].
Proof.
  intros h st.
  refine (proj1 (proj2 (proj2 (native_monitor_tick h st))) "42"%string eq_refl _ _).
  - discriminate.
  - right. reflexivity.
Defined.

(** C9, on the code.  The monitor callback never runs the process
    listing and does not depend on what it would answer: with a stored
    channel, no connection, and a listing in which [isDiscordRunning]
    finds no Discord, the callback still dispatches the rejoin. *)
Theorem monitor_ignores_process_list :
  (forall (h : Host) (st : State), executed (calls (monitorTick h st)) = [])
  /\ (forall (h : Host) (st : State) (listing : Js.Call string),
        monitorTick (withTasklist listing h) st = monitorTick h st)
  /\ (let h := mkHost Written None (Js.Returns tt)
                 (Js.Returns "explorer.exe  1234 Console"%string) in
      let st := mkState (Some 1%nat) (Saved "42") {[1%nat := 5000]} 2 in
      isDiscordRunning h = (false, [exec "tasklist"])
      /\ monitorTick h st = Js.Returns [rejoinAction "42"]).
Proof.
  split; [|split; [|split; reflexivity]].
  - intros h st. past_stored_guard st c.
    destruct (VoiceConnectionStore h) as [[[|]|]|];
      cbn [negb calls]; rewrite ?rejoinChannel_action; reflexivity.
  - intros h st listing. past_stored_guard st c. reflexivity.
Qed.

End NativeMonitor.

(** ** More on the pin store *)

Module PinStoreMore.
Import ClientPinnedMessages.

Lemma without_app removed pins pins' :
  without removed (pins ++ pins') = without removed pins ++ without removed pins'.
Proof. apply List.filter_app. Qed.

Lemma without_absent removed pins :
  holds removed pins = false -> without removed pins = pins.
Proof.
  induction pins as [|pin pins IH]; [reflexivity|].
  rewrite PinStore.holds_cons, PinStore.without_cons.
  intros H. apply orb_false_elim in H as [Hpin Hrest].
  rewrite Hpin, IH; trivial.
Qed.

Lemma without_without removed pins :
  without removed (without removed pins) = without removed pins.
Proof.
  apply without_absent. rewrite PinStore.holds_without, String.eqb_refl.
  apply andb_false_r.
Qed.

Lemma without_newPin now m : without (Message.id m) [newPin now m] = [].
Proof.
  unfold without. cbn. now rewrite String.eqb_refl.
Qed.

Lemma mirror_apply op st :
  loadPinnedMessages (db (apply st op)) = pinnedMessages (apply st op).
Proof.
  destruct op as [now m|pin]; cbn [apply unpinClick togglePin fst db pinnedMessages];
    unfold loadPinnedMessages, savePinnedMessages, DataStore.get, DataStore.set;
    now rewrite lookup_insert_eq.
Qed.

(** X2.  Two toggles of one message in a row: when its id was not
    pinned the list is back to what it was; when it was pinned the old
    records of that id are gone and the message sits at the end as a
    fresh record stamped by the second toggle. *)
Theorem togglePin_twice (now1 now2 : Z) (m : Message.t) (st : State) :
  pinnedMessages (togglePin now2 m (togglePin now1 m st))
  = if isPinned (Message.id m) st
    then without (Message.id m) (pinnedMessages st) ++ [newPin now2 m]
    else pinnedMessages st.
Proof.
  pose proof (PinStore.isPinned_togglePin (Message.id m) now1 m st) as Hflip.
  rewrite String.eqb_refl in Hflip. cbn [xorb] in Hflip.
  unfold togglePin at 1. cbn [pinnedMessages]. rewrite Hflip.
  unfold togglePin. cbn [pinnedMessages].
  destruct (isPinned (Message.id m) st) eqn:Hp; cbn [negb].
  - reflexivity.
  - rewrite without_app, without_newPin, app_nil_r.
    apply without_absent. exact Hp.
Qed.

(** X3.  A toggle leaves the records of every other message id as they
    were, in the same order. *)
Theorem togglePin_keeps_others (now : Z) (m : Message.t) (st : State) :
  without (Message.id m) (pinnedMessages (togglePin now m st))
  = without (Message.id m) (pinnedMessages st).
Proof.
  unfold togglePin. cbn [pinnedMessages].
  destruct (isPinned (Message.id m) st).
  - apply without_without.
  - rewrite without_app, without_newPin. apply app_nil_r.
Qed.

(** X4.  A click on Unpin removes by id: afterwards the id of the row
    is not pinned, whatever the row showed; the list handed to
    [setPins] is the new list; a second click changes nothing; and a
    click on a row whose id is no longer pinned leaves the list as it
    is. *)
Theorem unpinClick_removes (pin : PinnedMessage.t) (st : State) :
  let st' := fst (unpinClick pin st) in
  isPinned (PinnedMessage.id pin) st' = false
  /\ snd (unpinClick pin st) = pinnedMessages st'
  /\ fst (unpinClick pin st') = st'
  /\ (isPinned (PinnedMessage.id pin) st = false ->
      pinnedMessages st' = pinnedMessages st).
Proof.
  cbv zeta. unfold unpinClick, isPinned. cbn [fst snd pinnedMessages db].
  repeat split.
  - fold (holds (PinnedMessage.id pin)
            (without (PinnedMessage.id pin) (pinnedMessages st))).
    rewrite PinStore.holds_without, String.eqb_refl. apply andb_false_r.
  - unfold loadPinnedMessages, savePinnedMessages, DataStore.get, DataStore.set.
    now rewrite lookup_insert_eq.
  - rewrite without_without. unfold savePinnedMessages, DataStore.set.
    now rewrite insert_insert_eq.
  - intros Hp. now apply without_absent.
Qed.

Lemma unpinClick_removes_example :
  pinnedMessages
    (fst (unpinClick (PinnedMessage.mk "9" "" "" "" 0)
            (mkState [PinnedMessage.mk "5" "10" "hi" "bob" 2] ∅)))
  = [PinnedMessage.mk "5" "10" "hi" "bob" 2].
Proof.
  exact (proj2 (proj2 (proj2
           (unpinClick_removes (PinnedMessage.mk "9" "" "" "" 0)
              (mkState [PinnedMessage.mk "5" "10" "hi" "bob" 2] ∅))))
           eq_refl).
Defined.

(** *** The list view *)

Lemma insertNewestFirst_perm x l : insertNewestFirst x l ≡ₚ x :: l.
Proof.
  induction l as [|y rest IH]; cbn [insertNewestFirst]; [reflexivity|].
  destruct (PinnedMessage.timestamp y <=? PinnedMessage.timestamp x);
    [reflexivity|].
  rewrite IH. apply perm_swap.
Qed.

Lemma insertNewestFirst_sorted x l :
  StronglySorted
    (fun a b => PinnedMessage.timestamp b <= PinnedMessage.timestamp a) l ->
  StronglySorted
    (fun a b => PinnedMessage.timestamp b <= PinnedMessage.timestamp a)
    (insertNewestFirst x l).
Proof.
  induction l as [|y rest IH]; cbn [insertNewestFirst]; intros Hs.
  - repeat constructor.
  - apply StronglySorted_inv in Hs as [Hrest Hy].
    destruct (Z.leb_spec (PinnedMessage.timestamp y) (PinnedMessage.timestamp x))
      as [Hle|Hlt].
    + constructor; [now constructor|].
      constructor; [exact Hle|].
      eapply List.Forall_impl; [|exact Hy]. cbn. intros z Hz. lia.
    + constructor; [now apply IH|].
      rewrite insertNewestFirst_perm. constructor; [lia|exact Hy].
Qed.

Lemma insertNewestFirst_same_time t x l :
  List.filter (fun p => PinnedMessage.timestamp p =? t) (insertNewestFirst x l)
  = List.filter (fun p => PinnedMessage.timestamp p =? t) (x :: l).
Proof.
  induction l as [|y rest IH]; cbn [insertNewestFirst]; [reflexivity|].
  destruct (Z.leb_spec (PinnedMessage.timestamp y) (PinnedMessage.timestamp x))
    as [Hle|Hlt]; [reflexivity|].
  cbn [List.filter] in *. rewrite IH.
  destruct (Z.eqb_spec (PinnedMessage.timestamp x) t) as [Hx|Hx];
    destruct (Z.eqb_spec (PinnedMessage.timestamp y) t) as [Hy|Hy];
    try reflexivity.
  lia.
Qed.

(** X5.  What the list view shows after a poll: the stored records,
    each as often as it is stored, arranged by descending timestamp,
    with records of equal timestamp in their stored order. *)
Theorem pollPins_view (db0 : gmap string DataStore.Value) :
  pollPins db0 ≡ₚ loadPinnedMessages db0
  /\ StronglySorted
       (fun a b => PinnedMessage.timestamp b <= PinnedMessage.timestamp a)
       (pollPins db0)
  /\ (forall t : Z,
        List.filter (fun p => PinnedMessage.timestamp p =? t) (pollPins db0)
        = List.filter (fun p => PinnedMessage.timestamp p =? t)
            (loadPinnedMessages db0)).
Proof.
  unfold pollPins. generalize (loadPinnedMessages db0) as pins.
  intros pins. repeat split.
  - induction pins as [|pin pins IH]; [reflexivity|].
    cbn [sortNewestFirst List.fold_right].
    rewrite insertNewestFirst_perm. now constructor.
  - induction pins as [|pin pins IH]; [constructor|].
    cbn [sortNewestFirst List.fold_right]. now apply insertNewestFirst_sorted.
  - intros t. induction pins as [|pin pins IH]; [reflexivity|].
    cbn [sortNewestFirst List.fold_right].
    rewrite insertNewestFirst_same_time. cbn [List.filter].
    unfold sortNewestFirst in IH. now rewrite IH.
Qed.

(** *** The context menu *)

(** X6.  Without a message in its props the patch leaves the menu as
    it is.  With one it appends a separator and one button after the
    entries already there, and the button says what picking it does:
    picked in the state the menu was patched in, Pin for Me leaves the
    message pinned and Unpin for Me leaves it not pinned. *)
Theorem context_menu_entry (children : list MenuItem) (m : Message.t)
  (st : State) (now : Z) :
  patchMessageContextMenu children None st = children
  /\ patchMessageContextMenu children (Some (mkMenuProps None)) st = children
  /\ exists label : string,
       patchMessageContextMenu children (Some (mkMenuProps (Some m))) st
       = children ++ [separator; button label m]
       /\ (label = "Pin for Me"%string \/ label = "Unpin for Me"%string)
       /\ isPinned (Message.id m) (pick now (button label m) st)
          = String.eqb label "Pin for Me".
Proof.
  split; [reflexivity|]. split; [reflexivity|].
  pose proof (PinStore.isPinned_togglePin (Message.id m) now m st) as Hflip.
  rewrite String.eqb_refl in Hflip. cbn [xorb] in Hflip.
  cbn [patchMessageContextMenu pick]. rewrite <- app_assoc. cbn [app].
  destruct (isPinned (Message.id m) st) eqn:Hp.
  - exists "Unpin for Me"%string. rewrite Hflip. auto.
  - exists "Pin for Me"%string. rewrite Hflip. auto.
Qed.

(** *** The view under a clock that advances *)

Lemma insertNewestFirst_oldest x l :
  (forall y, In y l -> PinnedMessage.timestamp x < PinnedMessage.timestamp y) ->
  insertNewestFirst x l = l ++ [x].
Proof.
  induction l as [|y rest IH]; intros Hnewer; [reflexivity|].
  cbn [insertNewestFirst app].
  destruct (Z.leb_spec (PinnedMessage.timestamp y) (PinnedMessage.timestamp x))
    as [Hle|_].
  - specialize (Hnewer y (or_introl eq_refl)). lia.
  - rewrite IH; [reflexivity|]. intros z Hz. apply Hnewer. now right.
Qed.

Lemma sortNewestFirst_ascending l :
  StronglySorted
    (fun a b => PinnedMessage.timestamp a < PinnedMessage.timestamp b) l ->
  sortNewestFirst l = rev l.
Proof.
  induction l as [|x l IH]; intros Hs; [reflexivity|].
  apply StronglySorted_inv in Hs as [Hl Hx].
  cbn [sortNewestFirst List.fold_right rev].
  fold (sortNewestFirst l). rewrite (IH Hl).
  apply insertNewestFirst_oldest. intros y Hy.
  apply in_rev in Hy. rewrite List.Forall_forall in Hx. now apply Hx.
Qed.

Lemma In_without p removed pins : In p (without removed pins) -> In p pins.
Proof. unfold without. intros H. now apply List.filter_In in H. Qed.

Lemma without_ascending removed pins :
  StronglySorted
    (fun a b => PinnedMessage.timestamp a < PinnedMessage.timestamp b) pins ->
  StronglySorted
    (fun a b => PinnedMessage.timestamp a < PinnedMessage.timestamp b)
    (without removed pins).
Proof.
  induction pins as [|pin pins IH]; intros Hs; [constructor|].
  apply StronglySorted_inv in Hs as [Hrest Hpin].
  rewrite PinStore.without_cons.
  destruct (String.eqb (PinnedMessage.id pin) removed); [now apply IH|].
  constructor; [now apply IH|].
  rewrite List.Forall_forall in *. intros y Hy. apply Hpin.
  eapply In_without, Hy.
Qed.

Lemma push_ascending pin pins :
  StronglySorted
    (fun a b => PinnedMessage.timestamp a < PinnedMessage.timestamp b) pins ->
  (forall p, In p pins -> PinnedMessage.timestamp p < PinnedMessage.timestamp pin) ->
  StronglySorted
    (fun a b => PinnedMessage.timestamp a < PinnedMessage.timestamp b)
    (pins ++ [pin]).
Proof.
  induction pins as [|p pins IH]; intros Hs Hold; cbn [app].
  - repeat constructor.
  - apply StronglySorted_inv in Hs as [Hrest Hp].
    constructor.
    + apply IH; [exact Hrest|]. intros q Hq. apply Hold. now right.
    + apply List.Forall_app. split; [exact Hp|].
      repeat constructor. apply Hold. now left.
Qed.

Lemma toggleAll_ascending calls : forall st,
  StronglySorted Z.lt (List.map fst calls) ->
  StronglySorted
    (fun a b => PinnedMessage.timestamp a < PinnedMessage.timestamp b)
    (pinnedMessages st) ->
  (forall p n, In p (pinnedMessages st) -> In n (List.map fst calls) ->
               PinnedMessage.timestamp p < n) ->
  StronglySorted
    (fun a b => PinnedMessage.timestamp a < PinnedMessage.timestamp b)
    (pinnedMessages (toggleAll calls st)).
Proof.
  induction calls as [|[now m] calls IH]; intros st Hclock Hs Hold; [exact Hs|].
  cbn [List.map fst] in Hclock, Hold.
  apply StronglySorted_inv in Hclock as [Hclock Hnow].
  rewrite List.Forall_forall in Hnow.
  unfold toggleAll in *. cbn [fold_left fst snd]. apply IH; [exact Hclock| |].
  - unfold togglePin. cbn [pinnedMessages].
    destruct (isPinned (Message.id m) st).
    + now apply without_ascending.
    + apply push_ascending; [exact Hs|].
      intros p Hp. cbn [newPin PinnedMessage.timestamp].
      apply Hold; [exact Hp|now left].
  - intros p n Hp Hn. unfold togglePin in Hp. cbn [pinnedMessages] in Hp.
    destruct (isPinned (Message.id m) st).
    + apply Hold; [eapply In_without, Hp|now right].
    + apply List.in_app_or in Hp as [Hp|[<-|[]]].
      * apply Hold; [exact Hp|now right].
      * cbn [newPin PinnedMessage.timestamp]. now apply Hnow.
Qed.

(** X19.  When the clock reads strictly later at every toggle, the
    view after a poll is the pin list in reverse: the message pinned
    last comes first. *)
Theorem view_is_reverse_pin_order (db0 : gmap string DataStore.Value)
  (calls : list (Z * Message.t)) (call : Z * Message.t) :
  StronglySorted Z.lt (List.map fst (calls ++ [call])) ->
  let st := toggleAll (calls ++ [call]) (empty db0) in
  pollPins (db st) = rev (pinnedMessages st).
Proof.
  intros Hclock st.
  assert (Hmirror : loadPinnedMessages (db st) = pinnedMessages st).
  { subst st. unfold toggleAll. rewrite fold_left_app. cbn [fold_left].
    apply (mirror_apply (TogglePin (fst call) (snd call))). }
  unfold pollPins. rewrite Hmirror.
  apply sortNewestFirst_ascending. subst st.
  apply toggleAll_ascending; [exact Hclock|constructor|].
  intros p n [].
Qed.

Lemma view_is_reverse_pin_order_example :
  pollPins
    (db (toggleAll ([(1, Message.mk "5" "10" "hi" "bob");
                     (2, Message.mk "6" "10" "yo" "eve")]
                    ++ [(3, Message.mk "7" "11" "ok" "dan")])
           (empty ∅)))
  = [PinnedMessage.mk "7" "11" "ok" "dan" 3;
     PinnedMessage.mk "6" "10" "yo" "eve" 2;
     PinnedMessage.mk "5" "10" "hi" "bob" 1].
Proof.
  refine (eq_trans (view_is_reverse_pin_order ∅ _ _ _) eq_refl).
  repeat constructor.
Defined.

End PinStoreMore.


(** ** More on the reconnect monitor *)

Module ReconnectMore.
Import AlwaysConnected.

(** *** Timers *)

Lemma autoRejoin_timers s w st :
  intervals (fst (autoRejoin s w st)) = intervals st
  /\ nextTimer (fst (autoRejoin s w st)) = nextTimer st
  /\ monitorInterval (fst (autoRejoin s w st)) = monitorInterval st.
Proof.
  unfold autoRejoin.
  destruct (Js.or (lastVoiceChannel st) (getCurrentVoiceChannelId w)) as [c|];
    [|cbn; auto].
  destruct (Js.truthy (Some c)); cbn; auto.
Qed.

Lemma start_timers s w st :
  monitorInterval (fst (start s w st)) = Some (nextTimer st)
  /\ intervals (fst (start s w st)) = <[nextTimer st := 3000]> (intervals st)
  /\ nextTimer (fst (start s w st)) = S (nextTimer st).
Proof.
  unfold start.
  set (st1 := setLastVoiceChannel (storedChannel (db st)) st).
  destruct (Js.truthy (lastVoiceChannel st1) && negb (isConnected w)).
  - destruct (autoRejoin_timers s w st1) as (Hi & Hn & _).
    destruct (autoRejoin s w st1) as [st2 out]. cbn in *.
    rewrite Hi, Hn. auto.
  - cbn. auto.
Qed.

(** X7.  [stop] after [start] clears the handle and removes exactly
    the interval that [start] created, provided the handle was fresh. *)
Theorem start_then_stop (s : Settings) (w : Window) (st : World) :
  intervals st !! nextTimer st = None ->
  monitorInterval (stop (fst (start s w st))) = None
  /\ intervals (stop (fst (start s w st))) = intervals st.
Proof.
  intros Hfresh. destruct (start_timers s w st) as (Hm & Hi & _).
  unfold stop. rewrite Hm. cbn [monitorInterval intervals]. rewrite Hi.
  split; [reflexivity|].
  rewrite delete_insert_eq. now apply delete_id.
Qed.

Lemma start_then_stop_example :
  intervals (stop (fst (start (settings 30000) down (initial ∅)))) = ∅.
Proof.
  exact (proj2 (start_then_stop (settings 30000) down (initial ∅) eq_refl)).
Defined.

Lemma stop_stop st : stop (stop st) = stop st.
Proof.
  unfold stop. destruct (monitorInterval st) eqn:Hm; cbn; [reflexivity|].
  now rewrite Hm.
Qed.

Lemma stop_started st h :
  monitorInterval st = Some h ->
  monitorInterval (stop st) = None
  /\ intervals (stop st) = delete h (intervals st).
Proof. intros Hm. unfold stop. rewrite Hm. auto. Qed.

(** X8.  A second [start] without a [stop] in between overwrites the
    handle: the [stop] that follows clears the handle and removes the
    second interval, and only that one.  The interval of the first
    [start] stays alive, ticking every 3000 ms, every other interval is
    as it was, and a further [stop] does nothing. *)
Theorem second_start_orphans_first (s : Settings) (w1 w2 : Window)
  (st : World) :
  let st' := stop (fst (start s w2 (fst (start s w1 st)))) in
  monitorInterval st' = None
  /\ intervals st' !! nextTimer st = Some 3000
  /\ intervals st' !! S (nextTimer st) = None
  /\ (forall t : nat,
        t <> nextTimer st -> t <> S (nextTimer st) ->
        intervals st' !! t = intervals st !! t)
  /\ stop st' = st'.
Proof.
  cbv zeta.
  destruct (start_timers s w1 st) as (Hm1 & Hi1 & Hn1).
  destruct (start_timers s w2 (fst (start s w1 st))) as (Hm2 & Hi2 & _).
  rewrite Hn1 in Hm2, Hi2. rewrite Hi1 in Hi2.
  destruct (stop_started _ _ Hm2) as [Hnone Hleft].
  rewrite Hleft, Hi2.
  split; [exact Hnone|]. split; [|split; [|split; [|apply stop_stop]]].
  - rewrite lookup_delete_ne by lia. rewrite lookup_insert_ne by lia.
    apply lookup_insert_eq.
  - apply lookup_delete_eq.
  - intros t Hfirst Hsecond.
    rewrite lookup_delete_ne by congruence.
    rewrite lookup_insert_ne by congruence.
    now rewrite lookup_insert_ne by congruence.
Qed.

Lemma second_start_orphans_first_example :
  let st' := stop (fst (start (settings 30000) down
                          (fst (start (settings 30000) down (initial ∅))))) in
  intervals st' !! 7%nat = None.
Proof.
  intros st'.
  refine (eq_trans (proj1 (proj2 (proj2 (proj2
            (second_start_orphans_first (settings 30000) down down (initial ∅)))))
            7%nat _ _) eq_refl); discriminate.
Defined.

(** *** Retries in flight *)

Lemma stop_timeouts st : timeouts (stop st) = timeouts st.
Proof. unfold stop. now destruct (monitorInterval st). Qed.

Lemma onVoiceStateUpdates_timeouts updates st :
  timeouts (onVoiceStateUpdates updates st) = timeouts st.
Proof. unfold onVoiceStateUpdates. now destruct (existsb _ updates). Qed.

(** X9.  Neither [stop] nor a manual disconnect cancels a retry that is
    pending: when its timer fires and the connection is gone, it calls
    [join] on its channel again and schedules the next attempt. *)
Theorem pending_retry_outlives_stop (before : list Retry) (c : string)
  (base : Z) (k : nat) (w : Window) (outcome : Js.Call unit)
  (updates : list VoiceState.t) (st : World) :
  timeouts st = before ++ [pending c base k] ->
  isConnected w = false ->
  VoiceService w = Some (Function outcome) ->
  let st' := onVoiceStateUpdates updates (stop st) in
  snd (fire (length before) w st')
  = [VoiceService_join c;
     setTimeout (Z.min (base * (Z.of_nat k + 2)) 60000)].
Proof.
  intros Hq Hdown Hjoin st'.
  assert (Hq' : timeouts st' = before ++ [pending c base k]).
  { subst st'. now rewrite onVoiceStateUpdates_timeouts, stop_timeouts. }
  destruct (Reconnect.fire_pending_down before c base k w st' Hq' Hdown)
    as [_ Hout].
  rewrite Hout. unfold tryJoin. rewrite Hjoin. cbn [app].
  replace (Z.of_nat (S k) + 1) with (Z.of_nat k + 2) by lia. reflexivity.
Qed.

Lemma pending_retry_outlives_stop_example :
  let st := fst (start (settings 30000) down
                   (initial {[dataStoreKey := DataStore.Str "42"]})) in
  let st' := onVoiceStateUpdates [VoiceState.mk None None false false] (stop st) in
  snd (fire 0 down st') = [VoiceService_join "42"; setTimeout 60000].
Proof.
  intros st.
  exact (pending_retry_outlives_stop [] "42" 30000 0 down (Js.Returns tt)
           [VoiceState.mk None None false false] st eq_refl eq_refl eq_refl).
Defined.

(** *** Start *)

Lemma keepAlive_remembered st c :
  lastVoiceChannel st = Some c ->
  keepAlive st = if String.eqb c "" then [] else [Native_nativeKeepAlive c].
Proof.
  intros Hlast. unfold keepAlive. rewrite Hlast. cbn [Js.truthy].
  now destruct (String.eqb c "").
Qed.

Lemma autoRejoin_remembered s w st c :
  lastVoiceChannel st = Some c ->
  String.eqb c "" = false ->
  autoRejoin s w st = attemptRejoin w c (default (autoRejoinDelay s)) 0 st.
Proof.
  intros Hlast Hne. unfold autoRejoin, Js.or. rewrite Hlast.
  cbn [Js.truthy]. rewrite Hne. cbn [negb Js.truthy]. rewrite Hne.
  reflexivity.
Qed.

Lemma start_effects (userValue : Z) (w : Window) (st : World) :
  lastVoiceChannel (fst (start (settings userValue) w st)) = storedChannel (db st)
  /\ snd (start (settings userValue) w st)
     = match storedChannel (db st) with
       | Some c =>
           if String.eqb c ""
           then []
           else (if isConnected w then []
                 else tryJoin w c ++ [setTimeout 30000])
                ++ [Native_nativeKeepAlive c]
       | None => []
       end.
Proof.
  unfold start.
  set (st1 := setLastVoiceChannel (storedChannel (db st)) st).
  assert (Hlast : lastVoiceChannel st1 = storedChannel (db st)) by reflexivity.
  destruct (storedChannel (db st)) as [c|] eqn:Hstored.
  - rewrite Hlast. cbn [Js.truthy].
    destruct (String.eqb c "") eqn:Hempty; cbn [negb andb].
    + cbn [fst snd]. rewrite (keepAlive_remembered st1 c Hlast), Hempty.
      split; [exact Hlast|reflexivity].
    + destruct (isConnected w); cbn [negb].
      * cbn [fst snd]. rewrite (keepAlive_remembered st1 c Hlast), Hempty.
        split; [exact Hlast|reflexivity].
      * rewrite (autoRejoin_remembered _ w st1 c Hlast Hempty).
        unfold attemptRejoin. cbn [fst snd lastVoiceChannel].
        erewrite (keepAlive_remembered _ c) by reflexivity.
        rewrite Hempty. split; reflexivity.
  - rewrite Hlast. cbn [Js.truthy andb fst snd]. unfold keepAlive.
    rewrite Hlast. split; reflexivity.
Qed.

(** X10.  [start] forgets what the plugin remembered and takes the
    stored channel id instead.  With a non-empty stored id it hands the
    id to the native keep-alive and, when the connection is gone,
    first starts a rejoin loop on it; with no stored id, or an empty
    one, it calls nothing, whatever channel is selected. *)
Theorem start_calls (userValue : Z) (w : Window) (st : World) :
  lastVoiceChannel (fst (start (settings userValue) w st)) = storedChannel (db st)
  /\ snd (start (settings userValue) w st)
     = match storedChannel (db st) with
       | Some c =>
           if String.eqb c ""
           then []
           else (if isConnected w then []
                 else tryJoin w c ++ [setTimeout 30000])
                ++ [Native_nativeKeepAlive c]
       | None => []
       end.
Proof. apply start_effects. Qed.

Lemma tick_remembers s w st c :
  isConnected w = true ->
  getCurrentVoiceChannelId w = Some c ->
  c <> ""%string ->
  storedChannel (db (fst (tick s w st))) = Some c
  /\ lastVoiceChannel (fst (tick s w st)) = Some c
  /\ wasManuallyDisconnected (fst (tick s w st)) = false.
Proof.
  intros Hup Hcur Hne. unfold tick. rewrite Hup, Hcur. cbn [negb andb].
  assert (Htruthy : Js.truthy (Some c) = true).
  { cbn. destruct (String.eqb_spec c ""); [contradiction|reflexivity]. }
  rewrite Htruthy. cbn [fst db setDb lastVoiceChannel setLastVoiceChannel
    wasManuallyDisconnected setWasManuallyDisconnected].
  unfold storedChannel, DataStore.get, DataStore.set.
  rewrite lookup_insert_eq. auto.
Qed.

(** X11.  What a tick stored while the connection was present is what
    a later session rejoins: a plugin object created over that store
    and started while the connection is gone calls [join] on the
    stored channel, schedules the first recheck after 30000 ms and
    hands the channel to the native keep-alive. *)
Theorem stored_channel_rejoined_on_start (userValue : Z) (w w' : Window)
  (st : World) (c : string) (outcome : Js.Call unit) :
  isConnected w = true ->
  getCurrentVoiceChannelId w = Some c ->
  c <> ""%string ->
  isConnected w' = false ->
  VoiceService w' = Some (Function outcome) ->
  let s := settings userValue in
  snd (start s w' (initial (db (fst (tick s w st)))))
  = [VoiceService_join c; setTimeout 30000; Native_nativeKeepAlive c].
Proof.
  intros Hup Hcur Hne Hdown Hjoin s.
  destruct (tick_remembers s w st c Hup Hcur Hne) as (Hstored & _ & _).
  destruct (start_effects userValue w' (initial (db (fst (tick s w st)))))
    as [_ Hout].
  fold s in Hout. rewrite Hout. cbn [db initial]. rewrite Hstored, Hdown.
  destruct (String.eqb_spec c "") as [Hempty|_]; [contradiction|].
  unfold tryJoin. rewrite Hjoin. reflexivity.
Qed.

Lemma stored_channel_rejoined_on_start_example :
  snd (start (settings 30000) down
         (initial (db (fst (tick (settings 30000) up (initial ∅))))))
  = [VoiceService_join "42"; setTimeout 30000; Native_nativeKeepAlive "42"].
Proof.
  refine (stored_channel_rejoined_on_start 30000 up down (initial ∅)
            "42" (Js.Returns tt) eq_refl eq_refl _ eq_refl eq_refl).
  discriminate.
Defined.

(** *** Ticks while the connection is gone *)

Lemma tick_down userValue w st c :
  lastVoiceChannel st = Some c ->
  String.eqb c "" = false ->
  wasManuallyDisconnected st = false ->
  isConnected w = false ->
  tick (settings userValue) w st
  = (setTimeouts (timeouts st ++ [pending c 30000 0]) st,
     (tryJoin w c ++ [setTimeout 30000]) ++ [Native_nativeKeepAlive c]).
Proof.
  intros Hlast Hne Hflag Hdown. unfold tick. rewrite Hdown, Hflag.
  cbn [negb andb].
  rewrite (autoRejoin_remembered _ w st c Hlast Hne).
  unfold attemptRejoin.
  erewrite (keepAlive_remembered _ c) by exact Hlast.
  rewrite Hne. reflexivity.
Qed.

(** X12.  Every tick that finds the connection gone starts a rejoin
    loop of its own, whether or not earlier loops are still running:
    after n such ticks of a plugin that remembers a channel, n more
    retries are pending, each on that channel at attempt 0, and n
    rechecks have been scheduled 30000 ms ahead. *)
Theorem disconnected_ticks_pile_up (userValue : Z) (ws : list Window)
  (st : World) (c : string) :
  lastVoiceChannel st = Some c ->
  c <> ""%string ->
  wasManuallyDisconnected st = false ->
  forallb (fun w => negb (isConnected w)) ws = true ->
  let r := run (settings userValue) (List.map Tick ws) st in
  timeouts (fst r)
  = timeouts st ++ repeat (mkRetry c 30000 0 30000) (length ws)
  /\ delays (snd r) = repeat 30000 (length ws).
Proof.
  intros Hlast Hne Hflag Hdown. cbv zeta.
  assert (Hempty : String.eqb c "" = false).
  { now destruct (String.eqb_spec c ""). }
  revert st Hlast Hflag.
  induction ws as [|w ws IH]; intros st Hlast Hflag.
  - cbn. now rewrite app_nil_r.
  - cbn [forallb] in Hdown. apply andb_prop in Hdown as [Hw Hws].
    apply negb_true_iff in Hw.
    cbn [List.map]. rewrite Reconnect.run_cons. cbn [step fst snd].
    rewrite (tick_down userValue w st c Hlast Hempty Hflag Hw).
    cbn [fst snd].
    destruct (IH Hws (setTimeouts (timeouts st ++ [pending c 30000 0]) st)
                Hlast Hflag) as [Hq Hd].
    rewrite Hq, Reconnect.delays_app, Hd, !Reconnect.delays_app,
      Reconnect.delays_tryJoin.
    cbn [timeouts setTimeouts length repeat]. rewrite <- app_assoc.
    split; reflexivity.
Qed.

Lemma disconnected_ticks_pile_up_example :
  length (timeouts (fst (run (settings 30000) [Tick down; Tick down; Tick down]
                           remembering42))) = 3%nat.
Proof.
  refine (eq_trans (f_equal (@length _) (proj1
            (disconnected_ticks_pile_up 30000 [down; down; down] remembering42
               "42" eq_refl _ eq_refl eq_refl))) eq_refl).
  discriminate.
Defined.

(** *** What every call looks like *)

Lemma truthy_nonempty c : Js.truthy (Some c) = true -> c <> ""%string.
Proof. cbn. intros H ->. discriminate H. Qed.

Lemma properCall_tryJoin w c :
  c <> ""%string -> Forall properCall (tryJoin w c).
Proof.
  intros Hne. unfold tryJoin.
  destruct (VoiceService w) as [[|outcome]|]; repeat constructor. exact Hne.
Qed.

Lemma properCall_keepAlive st : Forall properCall (keepAlive st).
Proof.
  unfold keepAlive. destruct (lastVoiceChannel st) as [c|]; [|constructor].
  destruct (Js.truthy (Some c)) eqn:Htruthy; repeat constructor.
  now apply truthy_nonempty.
Qed.

Lemma attemptRejoin_proper w c base k st :
  c <> ""%string -> base = 30000 -> 0 <= k ->
  Forall properRetry (timeouts st) ->
  Forall properRetry (timeouts (fst (attemptRejoin w c base k st)))
  /\ Forall properCall (snd (attemptRejoin w c base k st)).
Proof.
  intros Hne -> Hk Hq. cbn [attemptRejoin fst snd timeouts setTimeouts].
  split.
  - apply Forall_app. split; [exact Hq|].
    repeat constructor; cbn; [exact Hne|exact Hk].
  - apply Forall_app. split; [now apply properCall_tryJoin|].
    repeat constructor; unfold maxDelay; lia.
Qed.

Lemma autoRejoin_proper userValue w st :
  Forall properRetry (timeouts st) ->
  Forall properRetry (timeouts (fst (autoRejoin (settings userValue) w st)))
  /\ Forall properCall (snd (autoRejoin (settings userValue) w st)).
Proof.
  intros Hq. unfold autoRejoin.
  destruct (Js.or (lastVoiceChannel st) (getCurrentVoiceChannelId w)) as [c|];
    [|cbn; auto].
  destruct (Js.truthy (Some c)) eqn:Htruthy; [|cbn; auto].
  apply attemptRejoin_proper; try easy. now apply truthy_nonempty.
Qed.

Lemma fire_proper i w st :
  Forall properRetry (timeouts st) ->
  Forall properRetry (timeouts (fst (fire i w st)))
  /\ Forall properCall (snd (fire i w st)).
Proof.
  intros Hq. unfold fire.
  destruct (timeouts st !! i) as [r|] eqn:Hr; [|cbn; auto].
  destruct (Forall_lookup_1 _ _ _ _ Hq Hr) as (Hne & Hbase & Hk).
  assert (Hrest : Forall properRetry
                    (timeouts (setTimeouts (delete i (timeouts st)) st))).
  { cbn. now apply Forall_delete. }
  unfold recheck. destruct (negb (isConnected w)); [|cbn; auto].
  apply attemptRejoin_proper; trivial. lia.
Qed.

Lemma step_proper userValue ev st :
  Forall properRetry (timeouts st) ->
  Forall properRetry (timeouts (fst (step (settings userValue) ev st)))
  /\ Forall properCall (snd (step (settings userValue) ev st)).
Proof.
  intros Hq. destruct ev as [w| |updates| |w|i w]; cbn [step fst snd].
  - unfold start.
    set (st1 := setLastVoiceChannel (storedChannel (db st)) st).
    assert (Hq1 : Forall properRetry (timeouts st1)) by exact Hq.
    destruct (Js.truthy (lastVoiceChannel st1) && negb (isConnected w)).
    + destruct (autoRejoin_proper userValue w st1 Hq1) as [Hq2 Hout].
      destruct (autoRejoin (settings userValue) w st1) as [st2 out].
      cbn [fst snd timeouts] in *. split; [exact Hq2|].
      apply Forall_app. split; [exact Hout|apply properCall_keepAlive].
    + cbn [fst snd timeouts]. split; [exact Hq1|].
      apply properCall_keepAlive.
  - rewrite stop_timeouts. auto.
  - rewrite onVoiceStateUpdates_timeouts. auto.
  - auto.
  - unfold tick.
    destruct (negb (isConnected w) && negb (wasManuallyDisconnected st)).
    + destruct (autoRejoin_proper userValue w st Hq) as [Hq2 Hout].
      destruct (autoRejoin (settings userValue) w st) as [st2 out].
      cbn [fst snd] in *. split; [exact Hq2|].
      apply Forall_app. split; [exact Hout|apply properCall_keepAlive].
    + destruct (isConnected w); [|cbn; auto].
      destruct (getCurrentVoiceChannelId w) as [c|]; [|cbn; auto].
      destruct (Js.truthy (Some c)); cbn; auto.
  - now apply fire_proper.
Qed.

Lemma run_proper userValue evs : forall st,
  Forall properRetry (timeouts st) ->
  Forall properRetry (timeouts (fst (run (settings userValue) evs st)))
  /\ Forall properCall (snd (run (settings userValue) evs st)).
Proof.
  induction evs as [|ev evs IH]; intros st Hq; [cbn; auto|].
  rewrite Reconnect.run_cons. cbn [fst snd].
  destruct (step_proper userValue ev st Hq) as [Hq1 Hout1].
  destruct (IH _ Hq1) as [Hq2 Hout2].
  split; [exact Hq2|]. apply Forall_app. auto.
Qed.

(** X13.  In any run from a state whose pending retries are proper
    (as in a fresh plugin, which has none), every [join] and every
    native keep-alive carries a non-empty channel id, and every recheck
    is scheduled between 30000 and 60000 ms ahead. *)
Theorem calls_are_proper (userValue : Z) (evs : list Event) (st : World) :
  Forall properRetry (timeouts st) ->
  Forall
    (fun e => match e with
              | VoiceService_join c => c <> ""%string
              | Native_nativeKeepAlive c => c <> ""%string
              | setTimeout d => 30000 <= d <= 60000
              end)
    (snd (run (settings userValue) evs st)).
Proof.
  intros Hq. exact (proj2 (run_proper userValue evs st Hq)).
Qed.

Lemma calls_are_proper_example :
  Forall
    (fun e => match e with
              | VoiceService_join c => c <> ""%string
              | Native_nativeKeepAlive c => c <> ""%string
              | setTimeout d => 30000 <= d <= 60000
              end)
    (snd (run (settings 30000)
            [Start down; Tick up; Tick down; Timeout 0 down; Timeout 0 down]
            (initial ∅))).
Proof.
  apply calls_are_proper. apply Forall_nil_2.
Defined.

(** *** The history behind the flag *)

Lemma flag_set_by s ev st :
  wasManuallyDisconnected st = false ->
  wasManuallyDisconnected (fst (step s ev st)) = true ->
  exists updates,
    ev = VOICE_STATE_UPDATES updates /\ hasNullChannel updates = true.
Proof.
  intros Hclear Hset. destruct ev as [w| |updates| |w|i w]; cbn [step fst] in Hset.
  - destruct (Reconnect.start_frame s w st) as [Hflag _]. congruence.
  - destruct (Reconnect.stop_frame st) as [Hflag _]. congruence.
  - exists updates. split; [reflexivity|].
    unfold onVoiceStateUpdates in Hset. fold (hasNullChannel updates) in Hset.
    destruct (hasNullChannel updates); [reflexivity|congruence].
  - discriminate Hset.
  - unfold tick in Hset. rewrite Hclear in Hset. cbn [negb] in Hset.
    rewrite andb_true_r in Hset.
    destruct (isConnected w); cbn [negb] in Hset.
    + destruct (getCurrentVoiceChannelId w) as [c|]; [|discriminate Hset].
      destruct (Js.truthy (Some c)); discriminate Hset.
    + destruct (Reconnect.autoRejoin_frame s w st) as [Hflag _].
      destruct (autoRejoin s w st) as [st1 out]. cbn [fst] in *. congruence.
  - destruct (Reconnect.fire_frame i w st) as [Hflag _]. congruence.
Qed.

Lemma flag_cleared_by s ev st :
  negb (isConnectionOpen ev) && negb (isConnectedTick ev) = false ->
  wasManuallyDisconnected (fst (step s ev st)) = false.
Proof.
  intros Hloud.
  destruct ev as [w| |updates| |w|i w]; try discriminate Hloud;
    cbn [step fst]; [reflexivity|].
  cbn in Hloud. apply negb_false_iff in Hloud.
  unfold tick. rewrite Hloud. cbn [negb andb].
  destruct (getCurrentVoiceChannelId w) as [c|]; [|reflexivity].
  destruct (Js.truthy (Some c)); reflexivity.
Qed.

Lemma flag_history s evs :
  (forall st,
      wasManuallyDisconnected st = false ->
      wasManuallyDisconnected (fst (run s evs st)) = true ->
      exists before updates after,
        evs = before ++ VOICE_STATE_UPDATES updates :: after
        /\ hasNullChannel updates = true
        /\ forallb (fun ev => negb (isConnectionOpen ev)
                              && negb (isConnectedTick ev)) after = true)
  /\ (forall st,
        wasManuallyDisconnected (fst (run s evs st)) = true ->
        forallb (fun ev => negb (isConnectionOpen ev)
                           && negb (isConnectedTick ev)) evs = true
        \/ exists before updates after,
             evs = before ++ VOICE_STATE_UPDATES updates :: after
             /\ hasNullChannel updates = true
             /\ forallb (fun ev => negb (isConnectionOpen ev)
                                   && negb (isConnectedTick ev)) after = true).
Proof.
  induction evs as [|ev evs [IHset IHkept]].
  - split; [intros st Hclear Hset; cbn in Hset; congruence|].
    intros st _. now left.
  - assert (Hkept : forall st,
        wasManuallyDisconnected (fst (run s (ev :: evs) st)) = true ->
        forallb (fun ev => negb (isConnectionOpen ev)
                           && negb (isConnectedTick ev)) (ev :: evs) = true
        \/ exists before updates after,
             ev :: evs = before ++ VOICE_STATE_UPDATES updates :: after
             /\ hasNullChannel updates = true
             /\ forallb (fun ev => negb (isConnectionOpen ev)
                                   && negb (isConnectedTick ev)) after = true).
    { intros st Hset. rewrite Reconnect.run_cons in Hset. cbn [fst] in Hset.
      destruct (IHkept _ Hset) as [Hquiet|(before & updates & after & -> & H)].
      - cbn [forallb].
        destruct (negb (isConnectionOpen ev) && negb (isConnectedTick ev))
          eqn:Hev; [left; exact Hquiet|].
        right. pose proof (flag_cleared_by s ev st Hev) as Hclear.
        destruct (IHset _ Hclear Hset) as (before & updates & after & -> & H).
        now exists (ev :: before), updates, after.
      - right. now exists (ev :: before), updates, after. }
    split; [|exact Hkept].
    intros st Hclear Hset.
    destruct (Hkept st Hset) as [Hquiet|Hfound]; [|exact Hfound].
    rewrite Reconnect.run_cons in Hset. cbn [fst] in Hset.
    destruct (wasManuallyDisconnected (fst (step s ev st))) eqn:Hstep.
    + destruct (flag_set_by s ev st Hclear Hstep) as (updates & -> & Hnull).
      cbn [forallb] in Hquiet. apply andb_prop in Hquiet as [_ Hquiet].
      now exists [], updates, evs.
    + destruct (IHset _ Hstep Hset) as (before & updates & after & -> & H).
      now exists (ev :: before), updates, after.
Qed.

(** X18.  The flag is set only by the history the plugin has seen: if
    it was clear and is set after a run, the run contains a
    VOICE_STATE_UPDATES event with a null channel id after which
    neither CONNECTION_OPEN nor a tick that found the connection
    present was handled. *)
Theorem manual_flag_has_a_cause (s : Settings) (evs : list Event) (st : World) :
  wasManuallyDisconnected st = false ->
  wasManuallyDisconnected (fst (run s evs st)) = true ->
  exists before updates after,
    evs = before ++ VOICE_STATE_UPDATES updates :: after
    /\ hasNullChannel updates = true
    /\ forallb (fun ev => negb (isConnectionOpen ev)
                          && negb (isConnectedTick ev)) after = true.
Proof. apply (proj1 (flag_history s evs)). Qed.

Lemma manual_flag_has_a_cause_example :
  exists before updates after,
    [Start down; Tick up; VOICE_STATE_UPDATES [VoiceState.mk None None false false];
     Tick down]
    = before ++ VOICE_STATE_UPDATES updates :: after
    /\ hasNullChannel updates = true
    /\ forallb (fun ev => negb (isConnectionOpen ev)
                          && negb (isConnectedTick ev)) after = true.
Proof.
  exact (manual_flag_has_a_cause (settings 30000)
           [Start down; Tick up;
            VOICE_STATE_UPDATES [VoiceState.mk None None false false]; Tick down]
           (initial ∅) eq_refl eq_refl).
Defined.

End ReconnectMore.


(** ** More on the native companion *)

Module NativeMore.
Import Native.

(** *** One monitor at a time *)

Lemma saveChannelId_timers h c st :
  nativeMonitorInterval (saveChannelId h c st) = nativeMonitorInterval st
  /\ intervals (saveChannelId h c st) = intervals st.
Proof. unfold saveChannelId. now destruct (write h). Qed.

Lemma tracked_saveChannelId h c st : tracked st -> tracked (saveChannelId h c st).
Proof.
  unfold tracked. now destruct (saveChannelId_timers h c st) as [-> ->].
Qed.

Lemma tracked_startNativeMonitor h c st :
  tracked st -> tracked (startNativeMonitor h c st).
Proof.
  intros Ht. apply (tracked_saveChannelId h c) in Ht.
  unfold startNativeMonitor.
  destruct (nativeMonitorInterval (saveChannelId h c st)) as [t|] eqn:Hm;
    [exact Ht|].
  unfold tracked in *. rewrite Hm in Ht. cbn [nativeMonitorInterval intervals].
  rewrite Ht. apply insert_empty.
Qed.

Lemma tracked_serve st r : tracked st -> tracked (serve st r).
Proof.
  intros Ht. destruct r as [h c|h c|]; cbn [serve].
  - unfold nativeKeepAlive.
    pose proof (tracked_saveChannelId h c st Ht) as Ht1.
    destruct (nativeMonitorInterval (saveChannelId h c st)); [exact Ht1|].
    now apply tracked_startNativeMonitor.
  - now apply tracked_startNativeMonitor.
  - unfold stopNativeMonitor, tracked in *.
    destruct (nativeMonitorInterval st) as [t|] eqn:Hm; [|now rewrite Hm].
    cbn [nativeMonitorInterval intervals]. rewrite Ht.
    apply delete_singleton_eq.
Qed.

(** X14.  However keep-alives, monitor starts and monitor stops follow
    one another, the companion keeps at most one interval alive: the
    one its handle names, with period 5000, and none when the handle
    is clear.  A repeated start never adds a second interval. *)
Theorem one_native_monitor (rs : list Request) (st : State) :
  tracked st ->
  match nativeMonitorInterval (serveAll rs st) with
  | Some t => intervals (serveAll rs st) = {[t := 5000]}
  | None => intervals (serveAll rs st) = ∅
  end.
Proof.
  revert st. induction rs as [|r rs IH]; intros st Ht; [exact Ht|].
  unfold serveAll in *. cbn [fold_left]. apply IH. now apply tracked_serve.
Qed.

Lemma one_native_monitor_example :
  let h := mkHost Written None (Js.Returns tt) (Js.Returns ""%string) in
  intervals
    (serveAll [KeepAlive h "42"; StartMonitor h "43"; KeepAlive h "44"]
       (loaded Missing))
  = {[1%nat := 5000]}.
Proof.
  intros h.
  exact (one_native_monitor
           [KeepAlive h "42"; StartMonitor h "43"; KeepAlive h "44"]
           (loaded Missing) eq_refl).
Defined.

(** *** The state file *)

Lemma stateFile_saved h c st :
  stateFile (saveChannelId h c st)
  = match write h with
    | Written => Saved c
    | Refused => stateFile st
    | Broken => Corrupt
    end.
Proof. unfold saveChannelId. now destruct (write h). Qed.

Lemma monitorTick_file h st st' :
  stateFile st' = stateFile st -> monitorTick h st' = monitorTick h st.
Proof. intros Heq. unfold monitorTick, loadChannelId. now rewrite Heq. Qed.

Lemma stateFile_nativeKeepAlive h c st :
  stateFile (nativeKeepAlive h c st)
  = match write h with
    | Written => Saved c
    | Refused => stateFile st
    | Broken => Corrupt
    end.
Proof.
  unfold nativeKeepAlive, startNativeMonitor.
  destruct (nativeMonitorInterval (saveChannelId h c st)); cbn zeta.
  - apply stateFile_saved.
  - destruct (nativeMonitorInterval (saveChannelId h c (saveChannelId h c st)));
      cbn [stateFile]; rewrite !stateFile_saved; now destruct (write h).
Qed.

(** X15.  The monitor rejoins the channel of the latest keep-alive
    whose write succeeded, not the one it was started with: after a
    keep-alive for a non-empty id that was written, the state file
    holds that id and a monitor tick that finds no connection
    dispatches the rejoin for it.  A write refused before the file is
    opened is swallowed and leaves the file, and so the tick, as
    before.  A write that breaks after the file was opened is
    swallowed too, but leaves a file without an id: the id saved
    earlier is lost and the tick issues no call.  Stopping the monitor
    leaves the file as it is. *)
Theorem keep_alive_retargets_monitor (h h' : Host) (c : string) (st : State) :
  (write h = Written ->
   stateFile (nativeKeepAlive h c st) = Saved c
   /\ (c <> ""%string ->
       VoiceConnectionStore h' = None
       \/ VoiceConnectionStore h' = Some (Js.Returns false) ->
       monitorTick h' (nativeKeepAlive h c st) = Js.Returns [rejoinAction c]))
  /\ (write h = Refused ->
      stateFile (nativeKeepAlive h c st) = stateFile st
      /\ monitorTick h' (nativeKeepAlive h c st) = monitorTick h' st)
  /\ (write h = Broken ->
      stateFile (nativeKeepAlive h c st) = Corrupt
      /\ monitorTick h' (nativeKeepAlive h c st) = Js.Returns [])
  /\ stateFile (stopNativeMonitor st) = stateFile st.
Proof.
  pose proof (stateFile_nativeKeepAlive h c st) as Hfile.
  split; [|split; [|split]].
  - intros Hw. rewrite Hw in Hfile. split; [exact Hfile|].
    intros Hne Hgone. unfold monitorTick, loadChannelId. rewrite Hfile.
    assert (Htruthy : Js.truthy (Some c) = true).
    { cbn. destruct (String.eqb_spec c ""); [contradiction|reflexivity]. }
    rewrite Htruthy. cbn [negb].
    destruct Hgone as [-> | ->]; cbn [negb];
      now rewrite NativeMonitor.rejoinChannel_action.
  - intros Hw. rewrite Hw in Hfile. split; [exact Hfile|].
    now apply monitorTick_file.
  - intros Hw. rewrite Hw in Hfile. split; [exact Hfile|].
    unfold monitorTick, loadChannelId. now rewrite Hfile.
  - unfold stopNativeMonitor. now destruct (nativeMonitorInterval st).
Qed.

Lemma keep_alive_retargets_monitor_example :
  let h := mkHost Written None (Js.Returns tt) (Js.Returns ""%string) in
  let broken := mkHost Broken None (Js.Returns tt) (Js.Returns ""%string) in
  monitorTick h (nativeKeepAlive h "44" (nativeKeepAlive h "42" (loaded Missing)))
  = Js.Returns [rejoinAction "44"]
  /\ monitorTick h (nativeKeepAlive broken "44"
                      (nativeKeepAlive h "42" (loaded Missing)))
     = Js.Returns [].
Proof.
  intros h broken. split.
  - refine (proj2 (proj1 (keep_alive_retargets_monitor h h "44" _) eq_refl) _ _).
    + discriminate.
    + left. reflexivity.
  - exact (proj2 (proj1 (proj2 (proj2
             (keep_alive_retargets_monitor broken h "44" _))) eq_refl)).
Defined.

(** *** The process listing *)

Lemma prefix_append needle rest :
  String.prefix needle (needle +:+ rest) = true.
Proof.
  induction needle as [|a needle IH]; [now destruct rest|].
  change (String.prefix (String a needle) (String a (needle +:+ rest)) = true).
  cbn [String.prefix].
  destruct (ascii_dec a a) as [_|Hne]; [exact IH|contradiction].
Qed.

Lemma prefix_split needle : forall hay,
  String.prefix needle hay = true -> exists rest, hay = needle +:+ rest.
Proof.
  induction needle as [|a needle IH]; intros hay H.
  - now exists hay.
  - destruct hay as [|b hay]; cbn in H; [discriminate|].
    destruct (ascii_dec a b) as [->|_]; [|discriminate].
    destruct (IH hay H) as [rest ->]. now exists rest.
Qed.

Lemma includes_prefix needle hay :
  String.prefix needle hay = true -> Js.includes needle hay = true.
Proof. intros H. destruct hay; cbn [Js.includes]; now rewrite H. Qed.

Lemma includes_inside needle before after :
  Js.includes needle (before +:+ needle +:+ after) = true.
Proof.
  induction before as [|b before IH].
  - change (Js.includes needle (needle +:+ after) = true).
    apply includes_prefix, prefix_append.
  - change (Js.includes needle (String b (before +:+ needle +:+ after)) = true).
    cbn [Js.includes]. rewrite IH. apply orb_true_r.
Qed.

Lemma includes_split needle hay :
  Js.includes needle hay = true ->
  exists before after, hay = before +:+ needle +:+ after.
Proof.
  induction hay as [|b hay IH]; cbn [Js.includes]; intros H.
  - rewrite orb_false_r in H. destruct (prefix_split _ _ H) as [after ->].
    now exists EmptyString, after.
  - apply orb_prop in H as [H|H].
    + destruct (prefix_split _ _ H) as [after ->].
      now exists EmptyString, after.
    + destruct (IH H) as (before & after & ->).
      now exists (String b before), after.
Qed.

Lemma toLowerCase_append s s' :
  Js.toLowerCase (s +:+ s') = Js.toLowerCase s +:+ Js.toLowerCase s'.
Proof.
  induction s as [|a s IH]; [reflexivity|].
  change (Js.toLowerCase (String a (s +:+ s'))
          = String (Js.lowerAscii a) (Js.toLowerCase s +:+ Js.toLowerCase s')).
  cbn [Js.toLowerCase]. now rewrite IH.
Qed.

(** X16.  [isDiscordRunning] runs the listing once and reports true
    exactly when the listing succeeds and its output, lower-cased,
    contains discord.exe; so the name is found in any letter case and
    anywhere in the output, and a failed listing reports false. *)
Theorem discord_detection (h : Host) :
  snd (isDiscordRunning h) = [exec "tasklist"]
  /\ (fst (isDiscordRunning h) = true <->
      exists stdout before after : string,
        tasklist h = Js.Returns stdout
        /\ Js.toLowerCase stdout = before +:+ "discord.exe" +:+ after)
  /\ (forall before name after : string,
        Js.toLowerCase name = "discord.exe"%string ->
        tasklist h = Js.Returns (before +:+ name +:+ after) ->
        fst (isDiscordRunning h) = true)
  /\ (tasklist h = Js.Throws -> fst (isDiscordRunning h) = false).
Proof.
  unfold isDiscordRunning. cbn [fst snd].
  split; [reflexivity|]. split; [|split].
  - split.
    + destruct (tasklist h) as [stdout|]; [|discriminate].
      intros H. destruct (includes_split _ _ H) as (before & after & Heq).
      now exists stdout, before, after.
    + intros (stdout & before & after & -> & Heq).
      rewrite Heq. apply includes_inside.
  - intros before name after Hname ->.
    rewrite !toLowerCase_append, Hname. apply includes_inside.
  - now intros ->.
Qed.

Lemma discord_detection_example :
  fst (isDiscordRunning
         (mkHost Written None (Js.Returns tt)
            (Js.Returns ("svchost.exe 812 " +:+ "Discord.EXE" +:+ " 4242 Console"))))
  = true.
Proof.
  exact (proj1 (proj2 (proj2
           (discord_detection
              (mkHost Written None (Js.Returns tt)
                 (Js.Returns ("svchost.exe 812 " +:+ "Discord.EXE"
                              +:+ " 4242 Console"))))))
           "svchost.exe 812 "%string "Discord.EXE"%string " 4242 Console"%string
           eq_refl eq_refl).
Defined.

(** *** The dispatched event and the plugin *)

(** X17.  Whatever a monitor tick dispatches is a VOICE_STATE_UPDATES
    action whose one update carries a channel id, so the plugin's own
    handler for that event never takes it for a manual disconnect: it
    leaves the plugin state, the flag included, as it is. *)
Theorem synthetic_update_is_not_manual (h : Host) (st : State)
  (plugin : AlwaysConnected.World) :
  Forall
    (fun e => match e with
              | FluxDispatcher_dispatch type updates =>
                  type = "VOICE_STATE_UPDATES"%string
                  /\ AlwaysConnected.hasNullChannel updates = false
                  /\ AlwaysConnected.onVoiceStateUpdates updates plugin = plugin
              | exec _ => True
              end)
    (calls (monitorTick h st)).
Proof.
  unfold monitorTick.
  destruct (loadChannelId st) as [c|]; [|constructor].
  destruct (negb (Js.truthy (Some c))); [constructor|].
  destruct (VoiceConnectionStore h) as [[[|]|]|]; cbn [negb calls];
    rewrite ?NativeMonitor.rejoinChannel_action; repeat constructor.
Qed.

End NativeMore.
